(** * IDM heating sensor platform (custom_components/idm/sensor.py)

    A shallow embedding of the Home Assistant platform that polls the IDM
    cloud API: the client object [IdmData] with its throttled [update], the
    entity [IdmHeatingSensor] with its per-key extraction, the two
    code-to-label dictionaries and [setup_platform].

    Python objects are modelled as follows.
    - [str] is a list of Unicode code points ([pystr]); literals are written
      as UTF-8 text and decoded by [utf8].
    - decoded JSON is the tree [pyval]; [None] is [PNone].
    - a [float] is kept as the exact rational its literal denotes (with the
      two infinities and NaN apart); the rounding to binary64 is left out.
    - methods are state transformers that either return or raise ([M]); a
      raised exception keeps the state reached so far, as in Python. *)

From Stdlib Require Import ZArith NArith QArith Bool Ascii String List Lia Permutation.
Import ListNotations.

Local Open Scope list_scope.

(** ** Strings as code points *)

Definition pystr := list N.

Module Utf8.

Local Open Scope N_scope.

(** [go acc need bs]: [need] continuation bytes are still expected for the
    code point collected in [acc]. *)
Fixpoint go (acc : N) (need : nat) (bs : list N) : pystr :=
  match bs with
  | [] => []
  | b :: bs' =>
      match need with
      | O =>
          if b <? 128 then b :: go 0 O bs'
          else if b <? 224 then go (N.land b 31) 1%nat bs'
          else if b <? 240 then go (N.land b 15) 2%nat bs'
          else go (N.land b 7) 3%nat bs'
      | S O => (N.lor (N.shiftl acc 6) (N.land b 63)) :: go 0 O bs'
      | S k => go (N.lor (N.shiftl acc 6) (N.land b 63)) k bs'
      end
  end.

Definition decode (s : string) : pystr :=
  go 0 O (map N_of_ascii (list_ascii_of_string s)).

End Utf8.

Definition utf8 (s : string) : pystr := Utf8.decode s.

Fixpoint str_eqb (a b : pystr) : bool :=
  match a, b with
  | [], [] => true
  | x :: a', y :: b' => N.eqb x y && str_eqb a' b'
  | _, _ => false
  end.

(** [startswith k s]: [k] is a prefix of [s]. *)
Fixpoint startswith (k s : pystr) : bool :=
  match k, s with
  | [], _ => true
  | x :: k', y :: s' => N.eqb x y && startswith k' s'
  | _ :: _, [] => false
  end.

(** [k in s] for strings: [k] occurs in [s] as a substring. *)
Fixpoint contains (s k : pystr) : bool :=
  startswith k s || match s with [] => false | _ :: s' => contains s' k end.

(** ** [str.replace(old, new)]

    All non-overlapping occurrences, found from the left.  [replace_go] walks
    the string; [skip] counts the characters of a matched occurrence that are
    still to be dropped.  An empty [old] matches before every character and
    at the end. *)
Fixpoint replace_go (old new : pystr) (skip : nat) (s : pystr) : pystr :=
  match s with
  | [] => []
  | c :: s' =>
      match skip with
      | S k => replace_go old new k s'
      | O =>
          if startswith old s
          then new ++ replace_go old new (length old - 1) s'
          else c :: replace_go old new 0 s'
      end
  end.

Definition str_replace (s old new : pystr) : pystr :=
  match old with
  | [] => new ++ flat_map (fun c => c :: new) s
  | _ :: _ => replace_go old new 0 s
  end.

(** ** [str.rstrip(chars)]: drop the trailing characters that belong to the
    set [chars]. *)
Definition char_in (c : N) (chars : pystr) : bool := existsb (N.eqb c) chars.

Fixpoint str_rstrip (s chars : pystr) : pystr :=
  match s with
  | [] => []
  | c :: s' =>
      match str_rstrip s' chars with
      | [] => if char_in c chars then [] else [c]
      | r => c :: r
      end
  end.

(** ** Python values and exceptions *)

(** A [float]: the rational that the literal denotes, or an infinity, or NaN. *)
Inductive pyfloat : Type :=
| FFin (q : Q)
| FInf (negative : bool)
| FNan.

(** What [requests.post(...).json()] hands back: [dict] (with [str] keys),
    [list], [str], [int], [float], [bool] or [None]. *)
#[local] Unset Elimination Schemes.
Inductive pyval : Type :=
| PNone
| PBool (b : bool)
| PInt (z : Z)
| PFloat (f : pyfloat)
| PStr (s : pystr)
| PList (l : list pyval)
| PDict (d : list (pystr * pyval)).
#[local] Set Elimination Schemes.

(** The subclasses of [requests.exceptions.RequestException] that a call of
    [requests.post(...).json()] raises. *)
Inductive request_error : Type :=
| Timeout
| ConnectionError
| HTTPError
| TooManyRedirects
| JSONDecodeError
| OtherRequestError.

Inductive exn : Type :=
| RequestException (k : request_error)
| ValueError
| TypeError
| KeyError
| IndexError
| AttributeError
| OverflowError.

(** [except requests.exceptions.RequestException] *)
Definition is_RequestException (e : exn) : bool :=
  match e with RequestException _ => true | _ => false end.

(** [except ValueError]; [requests.exceptions.JSONDecodeError] derives from
    [json.JSONDecodeError], hence from [ValueError], too. *)
Definition is_ValueError (e : exn) : bool :=
  match e with
  | ValueError => true
  | RequestException JSONDecodeError => true
  | _ => false
  end.

Inductive result (A : Type) : Type :=
| Ok (a : A)
| Raise (e : exn).
Arguments Ok {A} a.
Arguments Raise {A} e.

(** ** The builtins [int] and [float] *)

Module Num.

Local Open Scope N_scope.

(** The blanks that [int] and [float] strip from both ends of a string: the
    ASCII white space (tab to carriage return, and the blank) and the Unicode
    white space above U+007F.  The separators U+001C to U+001F, which
    [str.isspace] counts as blanks, are not stripped. *)
Definition is_space (c : N) : bool :=
  ((9 <=? c) && (c <=? 13)) || (c =? 32)
  || (c =? 133) || (c =? 160) || (c =? 5760)
  || ((8192 <=? c) && (c <=? 8202))
  || (c =? 8232) || (c =? 8233) || (c =? 8239) || (c =? 8287) || (c =? 12288).

Fixpoint lstrip (s : pystr) : pystr :=
  match s with
  | c :: s' => if is_space c then lstrip s' else s
  | [] => []
  end.

Fixpoint rstrip (s : pystr) : pystr :=
  match s with
  | [] => []
  | c :: s' =>
      match rstrip s' with
      | [] => if is_space c then [] else [c]
      | r => c :: r
      end
  end.

Definition strip (s : pystr) : pystr := rstrip (lstrip s).

(** The code points of the digit zero in the scripts that have decimal
    digits (general category Nd, Unicode 14.0, the database of CPython 3.11):
    in each script the ten digits follow one another from the zero. *)
Definition digit_zeros : list N :=
  [ 48; 1632; 1776; 1984; 2406; 2534; 2662; 2790; 2918; 3046;
    3174; 3302; 3430; 3558; 3664; 3792; 3872; 4160; 4240; 6112;
    6160; 6470; 6608; 6784; 6800; 6992; 7088; 7232; 7248; 42528;
    43216; 43264; 43472; 43504; 43600; 44016; 65296; 66720; 68912; 69734;
    69872; 69942; 70096; 70384; 70736; 70864; 71248; 71360; 71472; 71904;
    72016; 72784; 73040; 73120; 92768; 92864; 93008; 120782; 120792; 120802;
    120812; 120822; 123200; 123632; 125264; 130032 ].

Fixpoint digit_from (zeros : list N) (c : N) : option N :=
  match zeros with
  | [] => None
  | z :: zeros' =>
      if (z <=? c) && (c <=? z + 9) then Some (c - z) else digit_from zeros' c
  end.

(** The value of a decimal digit: an ASCII digit or a decimal digit of
    another script, which [int] and [float] read alike. *)
Definition digit (c : N) : option N := digit_from digit_zeros c.

(** [sys.get_int_max_str_digits()] as it is set by default: [int] refuses a
    string with more digits. *)
Definition int_max_str_digits : nat := 4300.

(** [digitpart ::= digit (["_"] digit)*], read after its first digit:
    returns the value, the number of digits read and the rest. *)
Fixpoint digits_go (acc : N) (cnt : nat) (s : pystr) : N * nat * pystr :=
  match s with
  | [] => (acc, cnt, [])
  | c :: s' =>
      match digit c with
      | Some d => digits_go (10 * acc + d) (S cnt) s'
      | None =>
          if c =? 95 then
            match s' with
            | c' :: s'' =>
                match digit c' with
                | Some d => digits_go (10 * acc + d) (S cnt) s''
                | None => (acc, cnt, s)
                end
            | [] => (acc, cnt, s)
            end
          else (acc, cnt, s)
      end
  end.

Definition digitpart (s : pystr) : option (N * nat * pystr) :=
  match s with
  | c :: s' =>
      match digit c with
      | Some d => Some (digits_go d 1%nat s')
      | None => None
      end
  | [] => None
  end.

(** An optional sign: [true] for "-". *)
Definition sign (s : pystr) : bool * pystr :=
  match s with
  | c :: s' => if c =? 45 then (true, s') else if c =? 43 then (false, s') else (false, s)
  | [] => (false, [])
  end.

Definition apply_sign (neg : bool) (n : N) : Z :=
  if neg then (- Z.of_N n)%Z else Z.of_N n.

(** [int(s)] for a string, base 10. *)
Definition int_of_str (s : pystr) : option Z :=
  let '(neg, r) := sign (strip s) in
  match digitpart r with
  | Some (n, cnt, []) =>
      if Nat.leb cnt int_max_str_digits then Some (apply_sign neg n) else None
  | _ => None
  end.

Definition lower_ascii (c : N) : N :=
  if (65 <=? c) && (c <=? 90) then c + 32 else c.

(** Above this magnitude a decimal literal rounds to an infinity. *)
Definition float_overflow : Z := (2 ^ 1024 - 2 ^ 970)%Z.

(** The float denoted by [(-1)^neg * m * 10^e]. *)
Definition float_of_decimal (neg : bool) (m : N) (e : Z) : pyfloat :=
  let q := if (0 <=? e)%Z
           then inject_Z (Z.of_N m * 10 ^ e)
           else Qred (Qmake (Z.of_N m) (Z.to_pos (10 ^ (- e)))) in
  if Qle_bool (inject_Z float_overflow) q then FInf neg
  else FFin (if neg then Qopp q else q).

(** [exponent ::= ("e" | "E") [sign] digitpart], optional. *)
Definition exponent (s : pystr) : option (Z * pystr) :=
  match s with
  | c :: s' =>
      if (c =? 101) || (c =? 69) then
        let '(neg, r) := sign s' in
        match digitpart r with
        | Some (n, _, rest) => Some (apply_sign neg n, rest)
        | None => None
        end
      else Some (0%Z, s)
  | [] => Some (0%Z, [])
  end.

(** [number ::= [digitpart] "." digitpart | digitpart ["."]]: the mantissa
    and the number of digits after the point. *)
Definition number (s : pystr) : option (N * nat * pystr) :=
  match digitpart s with
  | Some (n, _, r) =>
      match r with
      | c :: r' =>
          if c =? 46 then
            match r' with
            | c' :: r'' =>
                match digit c' with
                | Some d => Some (digits_go (10 * n + d) 1%nat r'')
                | None => Some (n, O, r')
                end
            | [] => Some (n, O, [])
            end
          else Some (n, O, r)
      | [] => Some (n, O, [])
      end
  | None =>
      match s with
      | c :: r => if c =? 46 then digitpart r else None
      | [] => None
      end
  end.

(** [float(s)] for a string. *)
Definition float_of_str (s : pystr) : option pyfloat :=
  let '(neg, r) := sign (strip s) in
  let name := map lower_ascii r in
  if str_eqb name (utf8 "inf") || str_eqb name (utf8 "infinity") then Some (FInf neg)
  else if str_eqb name (utf8 "nan") then Some FNan
  else
    match number r with
    | Some (m, frac, r1) =>
        match exponent r1 with
        | Some (e, []) => Some (float_of_decimal neg m (e - Z.of_nat frac))
        | _ => None
        end
    | None => None
    end.

End Num.

(** [int(x)]; a float is truncated towards zero. *)
Definition py_int (x : pyval) : result Z :=
  match x with
  | PStr s => match Num.int_of_str s with Some z => Ok z | None => Raise ValueError end
  | PInt z => Ok z
  | PBool b => Ok (if b then 1%Z else 0%Z)
  | PFloat (FFin q) => Ok (Z.quot (Qnum q) (Zpos (Qden q)))
  | PFloat (FInf _) => Raise OverflowError
  | PFloat FNan => Raise ValueError
  | PNone | PList _ | PDict _ => Raise TypeError
  end.

(** [float(x)] *)
Definition py_float (x : pyval) : result pyfloat :=
  match x with
  | PStr s => match Num.float_of_str s with Some f => Ok f | None => Raise ValueError end
  | PInt z =>
      if (Num.float_overflow <=? Z.abs z)%Z then Raise OverflowError
      else Ok (FFin (inject_Z z))
  | PBool b => Ok (FFin (inject_Z (if b then 1 else 0)))
  | PFloat f => Ok f
  | PNone | PList _ | PDict _ => Raise TypeError
  end.

(** ** Subscripting *)

Fixpoint dict_get (d : list (pystr * pyval)) (k : pystr) : option pyval :=
  match d with
  | [] => None
  | (k', v) :: d' => if str_eqb k' k then Some v else dict_get d' k
  end.

(** [d[k] = v]: an existing key keeps its place, a new one goes last. *)
Fixpoint dict_set (d : list (pystr * pyval)) (k : pystr) (v : pyval)
  : list (pystr * pyval) :=
  match d with
  | [] => [(k, v)]
  | (k', v') :: d' =>
      if str_eqb k' k then (k', v) :: d' else (k', v') :: dict_set d' k v
  end.

(** A sequence index, counted from the end when negative. *)
Definition seq_index (len : nat) (i : Z) : option nat :=
  let j := (if i <? 0 then i + Z.of_nat len else i)%Z in
  if ((0 <=? j) && (j <? Z.of_nat len))%Z then Some (Z.to_nat j) else None.

(** [x["k"]] for a string literal key. *)
Definition getitem_key (x : pyval) (k : pystr) : result pyval :=
  match x with
  | PDict d => match dict_get d k with Some v => Ok v | None => Raise KeyError end
  | PNone | PBool _ | PInt _ | PFloat _ | PStr _ | PList _ => Raise TypeError
  end.

(** [x[i]] for an integer literal index; a decoded JSON object has no
    integer key. *)
Definition getitem_index (x : pyval) (i : Z) : result pyval :=
  match x with
  | PList l =>
      match seq_index (length l) i with
      | Some n => match nth_error l n with Some v => Ok v | None => Raise IndexError end
      | None => Raise IndexError
      end
  | PStr s =>
      match seq_index (length s) i with
      | Some n => match nth_error s n with Some c => Ok (PStr [c]) | None => Raise IndexError end
      | None => Raise IndexError
      end
  | PDict _ => Raise KeyError
  | PNone | PBool _ | PInt _ | PFloat _ => Raise TypeError
  end.

(** [x["k"] = v] *)
Definition setitem_key (x : pyval) (k : pystr) (v : pyval) : result pyval :=
  match x with
  | PDict d => Ok (PDict (dict_set d k v))
  | PNone | PBool _ | PInt _ | PFloat _ | PStr _ | PList _ => Raise TypeError
  end.

Fixpoint list_set {A : Type} (l : list A) (n : nat) (v : A) : list A :=
  match l, n with
  | [], _ => []
  | _ :: l', O => v :: l'
  | x :: l', S n' => x :: list_set l' n' v
  end.

(** [x.replace(old, new)] and [x.rstrip(chars)]: only [str] has them. *)
Definition method_replace (x : pyval) (old new : pystr) : result pyval :=
  match x with
  | PStr s => Ok (PStr (str_replace s old new))
  | PNone | PBool _ | PInt _ | PFloat _ | PList _ | PDict _ => Raise AttributeError
  end.

Definition method_rstrip (x : pyval) (chars : pystr) : result pyval :=
  match x with
  | PStr s => Ok (PStr (str_rstrip s chars))
  | PNone | PBool _ | PInt _ | PFloat _ | PList _ | PDict _ => Raise AttributeError
  end.

(** ** Methods: state and exceptions *)

Definition M (S A : Type) : Type := S -> result A * S.

Definition ret {S A : Type} (a : A) : M S A := fun s => (Ok a, s).

Definition raise {S A : Type} (e : exn) : M S A := fun s => (Raise e, s).

Definition bind {S A B : Type} (c : M S A) (k : A -> M S B) : M S B :=
  fun s =>
    match c s with
    | (Ok a, s') => k a s'
    | (Raise e, s') => (Raise e, s')
    end.

Definition lift_result {S A : Type} (r : result A) : M S A := fun s => (r, s).

Definition gets {S A : Type} (f : S -> A) : M S A := fun s => (Ok (f s), s).

Definition modify {S : Type} (f : S -> S) : M S unit := fun s => (Ok tt, f s).

(** [try: body except E: handler], where [caught] tells the members of [E]. *)
Definition try_except {S A : Type} (body : M S A) (caught : exn -> bool)
  (handler : exn -> M S A) : M S A :=
  fun s =>
    match body s with
    | (Ok a, s') => (Ok a, s')
    | (Raise e, s') => if caught e then handler e s' else (Raise e, s')
    end.

(** [for x in xs: body x] *)
Fixpoint for_each {S A : Type} (xs : list A) (body : A -> M S unit) : M S unit :=
  match xs with
  | [] => ret tt
  | x :: xs' => bind (body x) (fun _ => for_each xs' body)
  end.

Declare Scope py_scope.
Delimit Scope py_scope with py.
Notation "x <- c ;; k" := (bind c (fun x => k))
  (at level 61, c at next level, right associativity) : py_scope.
Notation "c ;; k" := (bind c (fun _ => k))
  (at level 61, right associativity) : py_scope.
Local Open Scope py_scope.

(** ** Module constants *)

(** [timedelta(seconds=300)]; times are counted in seconds. *)
Definition MIN_TIME_BETWEEN_UPDATES : Z := 300.

Definition SENSOR_PREFIX : pystr := utf8 "Heating ".

(** The table of descriptors: label, unit and icon per sensor type. *)
Definition descriptors : Type := list (pystr * (pystr * pystr * pystr)).

Definition SENSOR_TYPES : descriptors :=
  [ (utf8 "mode", (utf8 "mode", utf8 "", utf8 "mdi:settings"));
    (utf8 "circuit_mode", (utf8 "circuit mode", utf8 "", utf8 "mdi:settings"));
    (utf8 "errors", (utf8 "errors", utf8 "#", utf8 "mdi:alert-circle"));
    (utf8 "heat_quantity", (utf8 "heat quantity", utf8 "kWh", utf8 "mdi:radiator"));
    (utf8 "outside_temp", (utf8 "outside temp.", utf8 "°C", utf8 "mdi:thermometer"));
    (utf8 "forerun_temp_actual",
      (utf8 "forerun temp. (actual)", utf8 "°C", utf8 "mdi:temperature-celsius"));
    (utf8 "forerun_temp_target",
      (utf8 "forerun temp. (target)", utf8 "°C", utf8 "mdi:temperature-celsius"));
    (utf8 "room_temp_target", (utf8 "room temp. (target)", utf8 "°C", utf8 "mdi:thermometer"));
    (utf8 "return_flow_temp",
      (utf8 "return flow temp.", utf8 "°C", utf8 "mdi:temperature-celsius"));
    (utf8 "hygienic_temp", (utf8 "hygienic temp.", utf8 "°C", utf8 "mdi:temperature-celsius"));
    (utf8 "water_temp", (utf8 "water temp.", utf8 "°C", utf8 "mdi:temperature-celsius")) ].

(** The dictionaries in insertion order, which is the order of [items()]. *)
Definition modeDictionary : list (pystr * pystr) :=
  [ (utf8 "icon_12", utf8 "Aus");
    (utf8 "icon_auto", utf8 "Automatik");
    (utf8 "icon_3", utf8 "Warmwasser oder Einmalige WW Ladung") ].

Definition circuitModeDictionary : list (pystr * pystr) :=
  [ (utf8 "icon_12", utf8 "Aus");
    (utf8 "icon_24", utf8 "Zeitprogramm");
    (utf8 "icon_21", utf8 "Normal");
    (utf8 "icon_11", utf8 "Eco");
    (utf8 "icon_5", utf8 "manuell Heizen");
    (utf8 "icon_1", utf8 "manuell Kühlen") ].

Definition idmHost : pystr := utf8 "https://www.myidm.at".
Definition pathLogin : pystr := utf8 "/api/user/login".
Definition pathInstallations : pystr := utf8 "/api/installation/values".
Definition headers : list (pystr * pystr) :=
  [ (utf8 "User-Agent", utf8 "IDM App (Android)") ].

(** ** The world of the platform *)

(** One [requests.post(url, headers=..., data=..., timeout=...)]. *)
Record request : Type := mkRequest {
  req_url : pystr;
  req_headers : list (pystr * pystr);
  req_data : list (pystr * pyval);
  req_timeout : Z
}.

(** The remote side: what [requests.post(...).json()] evaluates to, a decoded
    body or a raised exception. *)
Definition network : Type := request -> result pyval.

Inductive log_record : Type :=
| LogDebug (msg : pystr)
| LogError (msg : pystr) (exc : exn).

(** An [IdmData] object; [_throttle] is the time of the last call that the
    [Throttle] decorator let through. *)
Record IdmData : Type := mkIdmData {
  _username : pystr;
  _password : pystr;
  data : pyval;
  _throttle : option Z
}.

(** What the platform's methods act on: the client object shared by the
    entities, the log and the requests posted so far. *)
Record world : Type := mkWorld {
  idm : IdmData;
  logged : list log_record;
  posted : list request
}.

Definition set_data (v : pyval) (w : world) : world :=
  mkWorld (mkIdmData (_username (idm w)) (_password (idm w)) v (_throttle (idm w)))
          (logged w) (posted w).

Definition set_throttle (t : Z) (w : world) : world :=
  mkWorld (mkIdmData (_username (idm w)) (_password (idm w)) (data (idm w)) (Some t))
          (logged w) (posted w).

Definition add_log (r : log_record) (w : world) : world :=
  mkWorld (idm w) (logged w ++ [r]) (posted w).

Definition add_post (r : request) (w : world) : world :=
  mkWorld (idm w) (logged w) (posted w ++ [r]).

Definition requests_post (net : network) (r : request) : M world pyval :=
  fun w => (net r, add_post r w).

(** ** [IdmData] *)

Definition IdmData_init (username password : pystr) : IdmData :=
  mkIdmData username password PNone None.

Definition login_request (self : IdmData) : request :=
  mkRequest (idmHost ++ pathLogin) headers
    [ (utf8 "username", PStr (_username self));
      (utf8 "password", PStr (_password self)) ] 10.

Definition values_request (installation token : pyval) : request :=
  mkRequest (idmHost ++ pathInstallations) headers
    [ (utf8 "installation", installation); (utf8 "token", token) ] 10.

(** The body of [IdmData.update], under the decorator. *)
Definition IdmData_update_body (net : network) : M world pyval :=
  modify (add_log (LogDebug (utf8 "Updating IDM Terra sensors with remote API"))) ;;
  try_except
    (self <- gets idm ;;
     j <- requests_post net (login_request self) ;;
     token <- lift_result (getitem_key j (utf8 "token")) ;;
     installations <- lift_result (getitem_key j (utf8 "installations")) ;;
     first <- lift_result (getitem_index installations 0) ;;
     installation <- lift_result (getitem_key first (utf8 "id")) ;;
     d <- requests_post net (values_request installation token) ;;
     modify (set_data d) ;;
     ret PNone)
    is_RequestException
    (fun exc =>
       modify (add_log (LogError (utf8 "Error occurred while fetching data: %r") exc)) ;;
       modify (set_data PNone) ;;
       ret (PBool false)).

(** Modelled from the spec: the decorator [homeassistant.util.Throttle],
    which the platform imports.  A call made less than [min_time] after the
    last call that went through does nothing and returns [None]; any other
    call is stamped with its time and runs the method. *)
Definition Throttle (min_time : Z) (method : M world pyval) (now : Z) : M world pyval :=
  fun w =>
    match _throttle (idm w) with
    | Some last =>
        if (now - last <? min_time)%Z then (Ok PNone, w)
        else method (set_throttle now w)
    | None => method (set_throttle now w)
    end.

(** [IdmData.update], called at time [now]. *)
Definition IdmData_update (net : network) (now : Z) : M world pyval :=
  Throttle MIN_TIME_BETWEEN_UPDATES (IdmData_update_body net) now.

(** ** [IdmHeatingSensor] *)

Record IdmHeatingSensor : Type := mkSensor {
  type : pystr;
  _name : pystr;
  _unit : pystr;
  _icon : pystr;
  _state : pyval
}.

(** A method of an entity acts on the entity and on the world it shares. *)
Definition entity_state : Type := (IdmHeatingSensor * world)%type.

Definition on_world {A : Type} (c : M world A) : M entity_state A :=
  fun s => let '(r, w') := c (snd s) in (r, (fst s, w')).

Definition set_state (v : pyval) (s : entity_state) : entity_state :=
  let self := fst s in
  (mkSensor (type self) (_name self) (_unit self) (_icon self) v, snd s).

(** [heatingData] is the object [self.data.data]: reading and writing it is
    reading and writing the snapshot held by the client. *)
Definition heatingData : M entity_state pyval := gets (fun s => data (idm (snd s))).

Definition store_heatingData (v : pyval) : M entity_state unit :=
  modify (fun s => (fst s, set_data v (snd s))).

(** [heatingData["mode"] = heatingData["mode"].replace(key, value)] *)
Definition translate_mode (kv : pystr * pystr) : M entity_state unit :=
  h <- heatingData ;;
  m <- lift_result (getitem_key h (utf8 "mode")) ;;
  r <- lift_result (method_replace m (fst kv) (snd kv)) ;;
  h' <- lift_result (setitem_key h (utf8 "mode") r) ;;
  store_heatingData h'.

(** [heatingData["circuits"][0]["mode"] =
       heatingData["circuits"][0]["mode"].replace(key, value)];
    the target is the first circuit inside the snapshot, so the new circuit
    is put back where it was read. *)
Definition translate_circuit_mode (kv : pystr * pystr) : M entity_state unit :=
  h <- heatingData ;;
  cs <- lift_result (getitem_key h (utf8 "circuits")) ;;
  c <- lift_result (getitem_index cs 0) ;;
  m <- lift_result (getitem_key c (utf8 "mode")) ;;
  r <- lift_result (method_replace m (fst kv) (snd kv)) ;;
  c' <- lift_result (setitem_key c (utf8 "mode") r) ;;
  match cs with
  | PList l =>
      h' <- lift_result (setitem_key h (utf8 "circuits") (PList (list_set l 0 c'))) ;;
      store_heatingData h'
  | _ => ret tt
  end.

(** [heatingData["circuits"][0][k]] *)
Definition first_circuit (k : pystr) : M entity_state pyval :=
  h <- heatingData ;;
  cs <- lift_result (getitem_key h (utf8 "circuits")) ;;
  c <- lift_result (getitem_index cs 0) ;;
  lift_result (getitem_key c k).

Definition top_level (k : pystr) : M entity_state pyval :=
  h <- heatingData ;;
  lift_result (getitem_key h k).

(** [self._state = float(x.rstrip(chars))] *)
Definition assign_float_stripped (x : pyval) (chars : pystr) : M entity_state unit :=
  s <- lift_result (method_rstrip x chars) ;;
  f <- lift_result (py_float s) ;;
  modify (set_state (PFloat f)).

Definition celsius : pystr := utf8 " °C".

(** The [if]/[elif] chain of [IdmHeatingSensor.update]. *)
Definition extract (ty : pystr) : M entity_state unit :=
  if str_eqb ty (utf8 "mode") then
    for_each modeDictionary translate_mode ;;
    v <- top_level (utf8 "mode") ;;
    modify (set_state v)
  else if str_eqb ty (utf8 "circuit_mode") then
    for_each circuitModeDictionary translate_circuit_mode ;;
    v <- first_circuit (utf8 "mode") ;;
    modify (set_state v)
  else if str_eqb ty (utf8 "errors") then
    x <- top_level (utf8 "error") ;;
    n <- lift_result (py_int x) ;;
    modify (set_state (PInt n))
  else if str_eqb ty (utf8 "heat_quantity") then
    x <- top_level (utf8 "sum_heat") ;;
    assign_float_stripped x (utf8 " kWh")
  else if str_eqb ty (utf8 "outside_temp") then
    x <- top_level (utf8 "temp_outside") ;;
    assign_float_stripped x celsius
  else if str_eqb ty (utf8 "forerun_temp_actual") then
    x <- first_circuit (utf8 "temp_forerun_actual") ;;
    assign_float_stripped x celsius
  else if str_eqb ty (utf8 "forerun_temp_target") then
    x <- first_circuit (utf8 "temp_forerun") ;;
    assign_float_stripped x celsius
  else if str_eqb ty (utf8 "room_temp_target") then
    x <- first_circuit (utf8 "temp_room_value") ;;
    f <- lift_result (py_float x) ;;
    modify (set_state (PFloat f))
  else if str_eqb ty (utf8 "return_flow_temp") then
    x <- top_level (utf8 "temp_heat") ;;
    assign_float_stripped x celsius
  else if str_eqb ty (utf8 "hygienic_temp") then
    x <- top_level (utf8 "temp_hygienic") ;;
    assign_float_stripped x celsius
  else if str_eqb ty (utf8 "water_temp") then
    x <- top_level (utf8 "temp_water") ;;
    assign_float_stripped x celsius
  else ret tt.

(** [IdmHeatingSensor.update], called at time [now]. *)
Definition IdmHeatingSensor_update (net : network) (now : Z) : M entity_state unit :=
  on_world (IdmData_update net now) ;;
  try_except
    (ty <- gets (fun s => type (fst s)) ;; extract ty)
    is_ValueError
    (fun _ => modify (set_state PNone)).

Definition known_keys : list pystr := map fst SENSOR_TYPES.

(** [sensor_type in SENSOR_TYPES] for the table as the module defines it:
    these are the keys the [if]/[elif] chain of [update] has a branch for. *)
Definition known_key (ty : pystr) : bool := existsb (str_eqb ty) known_keys.

Fixpoint descriptor_of (reg : descriptors) (ty : pystr) : option (pystr * pystr * pystr) :=
  match reg with
  | [] => None
  | (k, d) :: reg' => if str_eqb k ty then Some d else descriptor_of reg' ty
  end.

(** [IdmHeatingSensor.__init__]; [SENSOR_TYPES[self.type]] raises [KeyError]
    for a type that the table lacks. *)
Definition IdmHeatingSensor_init (reg : descriptors) (sensor_type : pystr)
  : result IdmHeatingSensor :=
  match descriptor_of reg sensor_type with
  | Some (label, unit_, icon) =>
      Ok (mkSensor sensor_type (SENSOR_PREFIX ++ label) unit_ icon PNone)
  | None => Raise KeyError
  end.

(** ** [setup_platform] and the host *)

Record config : Type := mkConfig {
  CONF_USERNAME : pystr;
  CONF_PASSWORD : pystr;
  CONF_SCAN_INTERVAL : option Z;
  CONF_RESOURCES : list pystr
}.

(** What [setup_platform] leaves behind: the table [SENSOR_TYPES], the world
    with the one client object, and the entities handed to [add_entities]. *)
Record platform : Type := mkPlatform {
  registry : descriptors;
  shared : world;
  entities : list IdmHeatingSensor
}.

Section Setup.

(** [hashlib.sha1(password.encode()).hexdigest()], [str.lower] and
    [str.title] come from the Python library. *)
Variable sha1_hexdigest : pystr -> pystr.
Variable str_lower : pystr -> pystr.
Variable str_title : pystr -> pystr.

(** The body of the loop over [config[CONF_RESOURCES]]. *)
Definition add_resource (acc : descriptors * list IdmHeatingSensor) (resource : pystr)
  : result (descriptors * list IdmHeatingSensor) :=
  let '(reg, ents) := acc in
  let sensor_type := str_lower resource in
  let reg' :=
    match descriptor_of reg sensor_type with
    | Some _ => reg
    | None => reg ++ [(sensor_type, (str_title sensor_type, utf8 "", utf8 "mdi:flash"))]
    end in
  match IdmHeatingSensor_init reg' sensor_type with
  | Ok e => Ok (reg', ents ++ [e])
  | Raise x => Raise x
  end.

Fixpoint add_resources (acc : descriptors * list IdmHeatingSensor) (rs : list pystr)
  : result (descriptors * list IdmHeatingSensor) :=
  match rs with
  | [] => Ok acc
  | r :: rs' =>
      match add_resource acc r with
      | Ok acc' => add_resources acc' rs'
      | Raise x => Raise x
      end
  end.

Definition setup_platform (cfg : config) : result platform :=
  let username := CONF_USERNAME cfg in
  let password := CONF_PASSWORD cfg in
  let passwordHashed := sha1_hexdigest password in
  let scanInterval := CONF_SCAN_INTERVAL cfg in
  let data := IdmData_init username passwordHashed in
  match add_resources (SENSOR_TYPES, []) (CONF_RESOURCES cfg) with
  | Ok (reg, ents) =>
      Ok (mkPlatform reg
            (mkWorld data [LogDebug (utf8 "Setup IDM Terra sensors")] [])
            ents)
  | Raise x => Raise x
  end.

End Setup.

(** One call of the host: [update()] on the entity at [poll_entity], at
    time [poll_time], with the remote side answering as [poll_net]. *)
Record poll : Type := mkPoll {
  poll_entity : nat;
  poll_time : Z;
  poll_net : network
}.

(** The host calls [update] on one of its entities and keeps going whether
    the call returns or raises. *)
Definition host_update (p : poll) (pf : platform) : platform :=
  match nth_error (entities pf) (poll_entity p) with
  | Some self =>
      let '(_, (self', w')) :=
        IdmHeatingSensor_update (poll_net p) (poll_time p) (self, shared pf) in
      mkPlatform (registry pf) w' (list_set (entities pf) (poll_entity p) self')
  | None => pf
  end.

Definition host_run (ps : list poll) (pf : platform) : platform :=
  fold_left (fun acc p => host_update p acc) ps pf.

(** The number of requests a call of [m] posts from the state [s]. *)
Definition posts_during {A : Type} (m : M world A) (w : world) : nat :=
  length (posted (snd (m w))) - length (posted w).

(** ** The extraction rules as the specification documents them *)

(** Where a metric is read: a top-level field of the snapshot, or a field of
    its first circuit. *)
Inductive source_field : Type :=
| TopField (k : pystr)
| CircuitField (k : pystr).

(** How the field is coerced: code tokens replaced by labels, an integer, a
    float after stripping the characters of a unit suffix, or a float. *)
Inductive coercion : Type :=
| Label (dict : list (pystr * pystr))
| Integer
| FloatStripped (suffix : pystr)
| FloatPlain.

Definition documented_rules : list (pystr * (source_field * coercion)) :=
  [ (utf8 "mode", (TopField (utf8 "mode"), Label modeDictionary));
    (utf8 "circuit_mode", (CircuitField (utf8 "mode"), Label circuitModeDictionary));
    (utf8 "errors", (TopField (utf8 "error"), Integer));
    (utf8 "heat_quantity", (TopField (utf8 "sum_heat"), FloatStripped (utf8 " kWh")));
    (utf8 "outside_temp", (TopField (utf8 "temp_outside"), FloatStripped (utf8 " °C")));
    (utf8 "forerun_temp_actual",
      (CircuitField (utf8 "temp_forerun_actual"), FloatStripped (utf8 " °C")));
    (utf8 "forerun_temp_target",
      (CircuitField (utf8 "temp_forerun"), FloatStripped (utf8 " °C")));
    (utf8 "room_temp_target", (CircuitField (utf8 "temp_room_value"), FloatPlain));
    (utf8 "return_flow_temp", (TopField (utf8 "temp_heat"), FloatStripped (utf8 " °C")));
    (utf8 "hygienic_temp", (TopField (utf8 "temp_hygienic"), FloatStripped (utf8 " °C")));
    (utf8 "water_temp", (TopField (utf8 "temp_water"), FloatStripped (utf8 " °C"))) ].

Fixpoint rule_of (rules : list (pystr * (source_field * coercion))) (key : pystr)
  : option (source_field * coercion) :=
  match rules with
  | [] => None
  | (k, r) :: rules' => if str_eqb k key then Some r else rule_of rules' key
  end.

Definition first_circuit_of (h : pyval) : option pyval :=
  match h with
  | PDict d =>
      match dict_get d (utf8 "circuits") with
      | Some (PList (c :: _)) => Some c
      | _ => None
      end
  | _ => None
  end.

(** The value of a field in a snapshot, when the snapshot has it. *)
Definition field_value (h : pyval) (f : source_field) : option pyval :=
  match f with
  | TopField k => match h with PDict d => dict_get d k | _ => None end
  | CircuitField k =>
      match first_circuit_of h with
      | Some (PDict c) => dict_get c k
      | _ => None
      end
  end.

(** Every token of the dictionary replaced by its label, in insertion order. *)
Definition translate (dict : list (pystr * pystr)) (s : pystr) : pystr :=
  fold_left (fun acc kv => str_replace acc (fst kv) (snd kv)) dict s.

(** The documented coercion of a field value; [None] when the value is not
    well formed for it. *)
Definition documented_coercion (c : coercion) (x : pyval) : option pyval :=
  match c with
  | Label dict =>
      match x with PStr s => Some (PStr (translate dict s)) | _ => None end
  | Integer =>
      match py_int x with Ok z => Some (PInt z) | Raise _ => None end
  | FloatStripped suffix =>
      match x with
      | PStr s =>
          match Num.float_of_str (str_rstrip s suffix) with
          | Some f => Some (PFloat f)
          | None => None
          end
      | _ => None
      end
  | FloatPlain =>
      match py_float x with Ok f => Some (PFloat f) | Raise _ => None end
  end.

(** A remote side that accepts the login and serves [snapshot]. *)
Definition serving (snapshot : pyval) : network :=
  fun r =>
    if str_eqb (req_url r) (idmHost ++ pathLogin)
    then Ok (PDict [ (utf8 "token", PStr (utf8 "t0"));
                     (utf8 "installations", PList [PDict [(utf8 "id", PInt 1)]]) ])
    else Ok snapshot.

(** A remote side on which every request fails with [e]. *)
Definition failing (e : exn) : network := fun _ => Raise e.

(** An entity of the given type as [__init__] leaves it, but holding [v]. *)
Definition sensor_of (ty : pystr) (v : pyval) : IdmHeatingSensor :=
  mkSensor ty (SENSOR_PREFIX ++ ty) (utf8 "") (utf8 "") v.

Definition fresh_world : world :=
  mkWorld (IdmData_init (utf8 "user") (utf8 "hash")) [] [].

Definition with_state (self : IdmHeatingSensor) (v : pyval) : IdmHeatingSensor :=
  mkSensor (type self) (_name self) (_unit self) (_icon self) v.

(** The call [IdmData.update] at [now] is held back by the decorator. *)
Definition throttled (now : Z) (w : world) : bool :=
  match _throttle (idm w) with
  | Some last => (now - last <? MIN_TIME_BETWEEN_UPDATES)%Z
  | None => false
  end.

Definition is_login (r : request) : bool := str_eqb (req_url r) (idmHost ++ pathLogin).

(** The number of exchanges with the remote side so far: each one starts
    with one login request. *)
Definition exchanges (w : world) : nat := length (filter is_login (posted w)).

(** A network call of the refresh raises [e]: the login does, or the login
    answers with a token and an installation and the values call does. *)
Inductive network_call_raises (net : network) (self : IdmData) (e : exn) : Prop :=
| login_raises :
    net (login_request self) = Raise e -> network_call_raises net self e
| values_raises (j token installations first installation : pyval) :
    net (login_request self) = Ok j ->
    getitem_key j (utf8 "token") = Ok token ->
    getitem_key j (utf8 "installations") = Ok installations ->
    getitem_index installations 0 = Ok first ->
    getitem_key first (utf8 "id") = Ok installation ->
    net (values_request installation token) = Raise e ->
    network_call_raises net self e.

(** What the handler of [IdmData.update] leaves: the snapshot absent, the
    debug line and the error line in the log. *)
Definition failed_refresh (w w' : world) (e : exn) : Prop :=
  data (idm w') = PNone
  /\ logged w' = logged w ++
       [ LogDebug (utf8 "Updating IDM Terra sensors with remote API");
         LogError (utf8 "Error occurred while fetching data: %r") e ].

(** A client that holds a snapshot from an earlier refresh. *)
Definition world_holding (snapshot : pyval) : world :=
  mkWorld (mkIdmData (utf8 "user") (utf8 "hash") snapshot None) [] [].

(** A login answer without a token, and one whose list of installations is
    empty. *)
Definition login_without_token : network := fun _ => Ok (PDict []).

Definition login_without_installation : network :=
  fun _ => Ok (PDict [ (utf8 "token", PStr (utf8 "t0")); (utf8 "installations", PList []) ]).

(** The outcome of the entity's [update] when it is nothing but the client's
    refresh. *)
Definition refresh_outcome (r : result pyval) : result unit :=
  match r with
  | Ok _ => Ok tt
  | Raise e => Raise e
  end.

(** [str.lower] and [str.title] on ASCII text, for examples of
    [setup_platform]. *)
Definition ascii_lower (s : pystr) : pystr := map Num.lower_ascii s.

Definition is_ascii_lower (c : N) : bool := ((97 <=? c) && (c <=? 122))%N.

Fixpoint ascii_title_go (in_word : bool) (s : pystr) : pystr :=
  match s with
  | [] => []
  | c :: s' =>
      let l := Num.lower_ascii c in
      if is_ascii_lower l
      then (if in_word then l else (l - 32)%N) :: ascii_title_go true s'
      else c :: ascii_title_go false s'
  end.

Definition ascii_title (s : pystr) : pystr := ascii_title_go false s.

(** The coercions that produce a number. *)
Definition numeric (c : coercion) : bool :=
  match c with
  | Label _ => false
  | Integer | FloatStripped _ | FloatPlain => true
  end.

(** Reading a field the way the branches of [update] do. *)
Definition read_field (f : source_field) : M entity_state pyval :=
  match f with
  | TopField k => top_level k
  | CircuitField k => first_circuit k
  end.

(** The shape shared by the nine numeric branches of [update]. *)
Definition numeric_branch (f : source_field) (c : coercion) : M entity_state unit :=
  x <- read_field f ;;
  match c with
  | Integer => n <- lift_result (py_int x) ;; modify (set_state (PInt n))
  | FloatStripped suffix => assign_float_stripped x suffix
  | FloatPlain => v <- lift_result (py_float x) ;; modify (set_state (PFloat v))
  | Label _ => ret tt
  end.

(** What the numeric coercions evaluate to in the code: a value or a raised
    exception. *)
Definition coerce_result (c : coercion) (x : pyval) : result pyval :=
  match c with
  | Integer => match py_int x with Ok n => Ok (PInt n) | Raise e => Raise e end
  | FloatStripped suffix =>
      match method_rstrip x suffix with
      | Ok s => match py_float s with Ok v => Ok (PFloat v) | Raise e => Raise e end
      | Raise e => Raise e
      end
  | FloatPlain => match py_float x with Ok v => Ok (PFloat v) | Raise e => Raise e end
  | Label _ => Ok x
  end.

(** The entity at [i] is of type [ty] and holds no value. *)
Definition unresolved_at (i : nat) (ty : pystr) (pf : platform) : Prop :=
  exists self, nth_error (entities pf) i = Some self
               /\ type self = ty /\ _state self = PNone.

(** A configuration that asks for a known and for an unknown key. *)
Definition example_config : config :=
  mkConfig (utf8 "user") (utf8 "password") (Some 60%Z) [utf8 "mode"; utf8 "Power"].

(** [hashlib.sha1(b"password").hexdigest()] *)
Definition example_sha1 (_ : pystr) : pystr :=
  utf8 "5baa61e4c9b93f3f0682250b6cf8331b7ee68fd8".

(** The snapshot [h] after [v] is stored in the field [f] that it has. *)
Definition write_field (h : pyval) (f : source_field) (v : pyval) : pyval :=
  match f, h with
  | TopField k, PDict d => PDict (dict_set d k v)
  | CircuitField k, PDict d =>
      match dict_get d (utf8 "circuits") with
      | Some (PList (PDict c :: l)) =>
          PDict (dict_set d (utf8 "circuits") (PList (PDict (dict_set c k v) :: l)))
      | _ => h
      end
  | _, _ => h
  end.

(** The world after an extraction that resolved to [v]: a label is written
    back into the snapshot, a number leaves the snapshot as it is. *)
Definition after_extraction (c : coercion) (f : source_field) (v : pyval) (w : world)
  : world :=
  match c with
  | Label _ => set_data (write_field (data (idm w)) f v) w
  | Integer | FloatStripped _ | FloatPlain => w
  end.

(** The value an entity of type [key] resolves to when its [update] is
    called on a client never refreshed before, the remote side serving
    [snapshot]; [None] when the call raises. *)
Definition resolves_to (key : pystr) (snapshot : pyval) : option pyval :=
  match IdmHeatingSensor_update (serving snapshot) 0 (sensor_of key PNone, fresh_world) with
  | (Ok _, (self, _)) => Some (_state self)
  | (Raise _, _) => None
  end.

(** A platform with the two entities [heat_quantity] and [errors], each
    holding a value, around [fresh_world]. *)
Definition two_entities : platform :=
  mkPlatform SENSOR_TYPES fresh_world
    [ sensor_of (utf8 "heat_quantity") (PFloat (FFin 7)); sensor_of (utf8 "errors") (PInt 0) ].

Definition bad_heat_snapshot : pyval :=
  PDict [ (utf8 "sum_heat", PStr (utf8 "not-a-number kWh")); (utf8 "error", PStr (utf8 "0")) ].

(** [W] is the throttle window of the client of [w0], which was never
    refreshed: after a first refresh at [t1], a refresh at [t2] is a no-op
    while less than [W] has elapsed and performs an exchange otherwise. *)
Definition throttle_window_is (W : Z) (w0 : world) : Prop :=
  forall (net1 net2 : network) (t1 t2 : Z),
    let w1 := snd (IdmData_update net1 t1 w0) in
    ((t2 - t1 < W)%Z -> IdmData_update net2 t2 w1 = (Ok PNone, w1))
    /\ ((W <= t2 - t1)%Z ->
        exchanges (snd (IdmData_update net2 t2 w1)) = S (exchanges w1)).

(** The poll interval of a configuration, 300 seconds when none is given. *)
Definition configured_interval (cfg : config) : Z :=
  match CONF_SCAN_INTERVAL cfg with
  | Some d => d
  | None => 300%Z
  end.

(** ** Tokens and labels *)

(** One of [a], [b] is a prefix of the other. *)
Definition compat (a b : pystr) : bool := startswith a b || startswith b a.

(** No occurrence of [k] can start inside [w], whatever follows [w]. *)
Fixpoint no_start_in (w k : pystr) : bool :=
  match w with
  | [] => true
  | _ :: w' => negb (compat w k) && no_start_in w' k
  end.

Definition nonempty (k : pystr) : bool :=
  match k with [] => false | _ :: _ => true end.

(** Two dictionary entries whose replacements cannot interfere: the tokens
    do not overlap, and neither token overlaps the label of the other. *)
Definition independent (a b : pystr * pystr) : bool :=
  nonempty (fst a) && nonempty (fst b)
  && no_start_in (fst a) (fst b) && no_start_in (fst b) (fst a)
  && no_start_in (snd a) (fst b) && no_start_in (snd b) (fst a)
  && no_start_in (fst a) (snd b) && no_start_in (fst b) (snd a).

(** No token overlaps a label. *)
Definition label_safe (dict : list (pystr * pystr)) : bool :=
  forallb (fun a =>
    nonempty (fst a)
    && forallb (fun b => no_start_in (snd b) (fst a) && no_start_in (fst a) (snd b)) dict)
    dict.

(** [s] contains none of the tokens of [dict]. *)
Definition token_free (dict : list (pystr * pystr)) (s : pystr) : bool :=
  forallb (fun a => negb (contains s (fst a))) dict.

Definition entry_eqb (a b : pystr * pystr) : bool :=
  str_eqb (fst a) (fst b) && str_eqb (snd a) (snd b).

(** Any two different entries of [dict] are independent. *)
Definition pairwise_independent (dict : list (pystr * pystr)) : bool :=
  forallb (fun a => forallb (fun b => entry_eqb a b || independent a b) dict) dict.

(** No key of [keys] occurs inside another one. *)
Definition substring_free (keys : list pystr) : bool :=
  forallb (fun a => forallb (fun b => str_eqb a b || negb (contains b a)) keys) keys.

(** The entries of the circuit dictionary before its last one, [icon_1]. *)
Definition circuit_entries_before_icon_1 : list (pystr * pystr) :=
  removelast circuitModeDictionary.

Definition icon_1_entry : pystr * pystr := (utf8 "icon_1", utf8 "manuell Kühlen").

(** [k] overlaps no label of [d], and the tokens of [d] are not empty. *)
Definition safe_for (k : pystr) (d : list (pystr * pystr)) : Prop :=
  forall b, In b d ->
            nonempty (fst b) = true
            /\ no_start_in (snd b) k = true /\ no_start_in k (snd b) = true.

(** The pairs [(a, b)] of different keys with [a] a substring of [b]. *)
Definition nested_tokens (keys : list pystr) : list (pystr * pystr) :=
  flat_map
    (fun b => map (fun a => (a, b))
                (filter (fun a => negb (str_eqb a b) && contains b a) keys))
    keys.

(** The snapshot [{"mode": "icon_auto"}] and what the entity [mode] makes of
    it. *)
Definition auto_snapshot : pyval := PDict [(utf8 "mode", PStr (utf8 "icon_auto"))].

Definition auto_snapshot_translated : pyval :=
  PDict [(utf8 "mode", PStr (utf8 "Automatik"))].

(** ** Views of the state, for the properties *)

(** The login answer [j] carries a token and the id of a first installation:
    [j["token"]] and [j["installations"][0]["id"]] evaluate. *)
Definition login_answers (j installation token : pyval) : Prop :=
  exists installations first,
    getitem_key j (utf8 "token") = Ok token
    /\ getitem_key j (utf8 "installations") = Ok installations
    /\ getitem_index installations 0 = Ok first
    /\ getitem_key first (utf8 "id") = Ok installation.

Definition credentials (self : IdmData) : pystr * pystr := (_username self, _password self).

(** What [__init__] fixes of an entity: everything but [_state]. *)
Definition descriptor (self : IdmHeatingSensor) : pystr * pystr * pystr * pystr :=
  (type self, _name self, _unit self, _icon self).

Definition debug_line : log_record :=
  LogDebug (utf8 "Updating IDM Terra sensors with remote API").

(** The world after a refresh at [now] that stored [d], having posted [rs]
    and logged [ls]. *)
Definition refreshed (w : world) (now : Z) (d : pyval) (ls : list log_record)
  (rs : list request) : world :=
  mkWorld (mkIdmData (_username (idm w)) (_password (idm w)) d (Some now))
          (logged w ++ ls) (posted w ++ rs).

(** What an extraction has no business with: the credentials, the throttle
    stamp, the log and the requests. *)
Definition frame (w : world) : pystr * pystr * option Z * list log_record * list request :=
  (credentials (idm w), _throttle (idm w), logged w, posted w).

(** [m] changes nothing of the entity but its value and nothing of the
    world but the snapshot. *)
Definition keeps {A : Type} (m : M entity_state A) : Prop :=
  forall s, descriptor (fst (snd (m s))) = descriptor (fst s)
            /\ frame (snd (snd (m s))) = frame (snd s).

(** [m] changes nothing at all. *)
Definition readonly {A : Type} (m : M entity_state A) : Prop :=
  forall s, snd (m s) = s.

(** When [m] raises, the state is the one it started from. *)
Definition atomic {A : Type} (m : M entity_state A) : Prop :=
  forall s e s', m s = (Raise e, s') -> s' = s.

Definition is_str (x : pyval) : bool :=
  match x with PStr _ => true | _ => false end.

(** The snapshot [h] is an object that lacks the field [f]; [e] is what
    reading the field raises. *)
Inductive missing_field : pyval -> source_field -> exn -> Prop :=
| missing_top (d : list (pystr * pyval)) (k : pystr) :
    dict_get d k = None -> missing_field (PDict d) (TopField k) KeyError
| missing_circuits (d : list (pystr * pyval)) (k : pystr) :
    dict_get d (utf8 "circuits") = None ->
    missing_field (PDict d) (CircuitField k) KeyError
| missing_first_circuit (d : list (pystr * pyval)) (k : pystr) :
    dict_get d (utf8 "circuits") = Some (PList []) ->
    missing_field (PDict d) (CircuitField k) IndexError
| missing_in_circuit (d c : list (pystr * pyval)) (l : list pyval) (k : pystr) :
    dict_get d (utf8 "circuits") = Some (PList (PDict c :: l)) ->
    dict_get c k = None ->
    missing_field (PDict d) (CircuitField k) KeyError.

(** The coercions that call a method of [str] on the field. *)
Definition uses_str_method (c : coercion) : bool :=
  match c with
  | Label _ | FloatStripped _ => true
  | Integer | FloatPlain => false
  end.

(** The descriptor that [setup_platform] makes up for a type it does not
    know. *)
Definition generated_descriptor (str_title : pystr -> pystr) (sensor_type : pystr)
  : pystr * pystr * pystr :=
  (str_title sensor_type, utf8 "", utf8 "mdi:flash").

(** The entity [e] was made for the resource [r] from the table [reg]. *)
Definition entity_for (str_lower : pystr -> pystr) (reg : descriptors) (r : pystr)
  (e : IdmHeatingSensor) : Prop :=
  type e = str_lower r
  /\ _state e = PNone
  /\ exists label, descriptor_of reg (str_lower r) = Some (label, _unit e, _icon e)
                   /\ _name e = SENSOR_PREFIX ++ label.

(** A request as the platform posts them: to the login endpoint with the
    client's credentials, or to the values endpoint with an installation and
    a token. *)
Definition platform_request (creds : pystr * pystr) (r : request) : Prop :=
  req_timeout r = 10%Z
  /\ req_headers r = headers
  /\ ((req_url r = idmHost ++ pathLogin
       /\ req_data r = [ (utf8 "username", PStr (fst creds));
                         (utf8 "password", PStr (snd creds)) ])
      \/ (req_url r = idmHost ++ pathInstallations
          /\ exists installation token,
               req_data r = [ (utf8 "installation", installation);
                              (utf8 "token", token) ])).

(** Every call of [ps] is made in the window of 300 seconds that starts at
    [t0]. *)
Definition within_one_window (t0 : Z) (ps : list poll) : Prop :=
  Forall (fun p => (t0 <= poll_time p < t0 + MIN_TIME_BETWEEN_UPDATES)%Z) ps.

(** ** Stripping, in general *)

(** Drop the trailing characters that satisfy [p]: the common shape of
    [Num.rstrip] and [str_rstrip]. *)
Fixpoint rstrip_by (p : N -> bool) (s : pystr) : pystr :=
  match s with
  | [] => []
  | c :: s' =>
      match rstrip_by p s' with
      | [] => if p c then [] else [c]
      | r => c :: r
      end
  end.

(** [s] is not empty and its last character satisfies [p]. *)
Definition ends_with (p : N -> bool) (s : pystr) : Prop :=
  exists x z, s = x ++ [z] /\ p z = true.

Definition is_digit (c : N) : bool :=
  match Num.digit c with Some _ => true | None => false end.

(** The characters a float literal can end with: a digit, the point, or the
    last letter of [inf], [infinity] and [nan] in either case. *)
Definition float_end (c : N) : bool :=
  is_digit c || N.eqb c 46
  || N.eqb (Num.lower_ascii c) 102 || N.eqb (Num.lower_ascii c) 121
  || N.eqb (Num.lower_ascii c) 110.

(** * Properties *)

(** ** Equality of strings *)

Lemma str_eqb_spec (a b : pystr) : reflect (a = b) (str_eqb a b).
Proof.
  revert b; induction a as [|x a IH]; intros [|y b]; simpl;
    try (constructor; congruence).
  destruct (N.eqb_spec x y) as [->|Hxy]; simpl.
  - destruct (IH b) as [->|Hab]; constructor; congruence.
  - constructor; congruence.
Qed.

Lemma str_eqb_refl (a : pystr) : str_eqb a a = true.
Proof. destruct (str_eqb_spec a a); congruence. Qed.

Lemma str_eqb_eq (a b : pystr) : str_eqb a b = true <-> a = b.
Proof. destruct (str_eqb_spec a b); split; congruence. Qed.


(** ** Running the methods *)

Ltac unfold_m :=
  cbv beta iota delta [bind ret raise lift_result gets modify try_except on_world
                       requests_post fst snd] in *.

Lemma login_request_set_throttle (t : Z) (w : world) :
  login_request (idm (set_throttle t w)) = login_request (idm w).
Proof. reflexivity. Qed.

Lemma Throttle_through (min_time now : Z) (m : M world pyval) (w : world) :
  match _throttle (idm w) with
  | Some last => (now - last <? min_time)%Z
  | None => false
  end = false ->
  Throttle min_time m now w = m (set_throttle now w).
Proof.
  unfold Throttle. destruct (_throttle (idm w)) as [last|]; [|reflexivity].
  intros ->. reflexivity.
Qed.

Lemma Throttle_held (min_time now last : Z) (m : M world pyval) (w : world) :
  _throttle (idm w) = Some last ->
  (now - last < min_time)%Z ->
  Throttle min_time m now w = (Ok PNone, w).
Proof.
  intros Hl Hlt. unfold Throttle. rewrite Hl.
  apply Z.ltb_lt in Hlt. rewrite Hlt. reflexivity.
Qed.

Lemma IdmData_update_through (net : network) (now : Z) (w : world) :
  throttled now w = false ->
  IdmData_update net now w = IdmData_update_body net (set_throttle now w).
Proof. intros H. apply Throttle_through. exact H. Qed.

(** The body posts exactly one login request, whatever the remote side does. *)
Lemma body_exchanges (net : network) (w : world) :
  exchanges (snd (IdmData_update_body net w)) = S (exchanges w).
Proof.
  unfold IdmData_update_body, exchanges. unfold_m.
  set (w0 := add_log _ w).
  destruct (net (login_request (idm w0))) as [j|e]; simpl.
  2:{ destruct (is_RequestException e); simpl;
        rewrite filter_app, length_app; simpl; lia. }
  destruct (getitem_key j (utf8 "token")) as [token|e]; simpl;
    [|destruct (is_RequestException e); simpl;
        rewrite filter_app, length_app; simpl; lia].
  destruct (getitem_key j (utf8 "installations")) as [insts|e]; simpl;
    [|destruct (is_RequestException e); simpl;
        rewrite filter_app, length_app; simpl; lia].
  destruct (getitem_index insts 0) as [first|e]; simpl;
    [|destruct (is_RequestException e); simpl;
        rewrite filter_app, length_app; simpl; lia].
  destruct (getitem_key first (utf8 "id")) as [inst|e]; simpl;
    [|destruct (is_RequestException e); simpl;
        rewrite filter_app, length_app; simpl; lia].
  destruct (net (values_request inst token)) as [d|e]; simpl.
  - rewrite !filter_app, !length_app; simpl; lia.
  - destruct (is_RequestException e); simpl;
      rewrite !filter_app, !length_app; simpl; lia.
Qed.

(** The body does not touch the decorator's stamp. *)
Lemma body_keeps_throttle (net : network) (w : world) :
  _throttle (idm (snd (IdmData_update_body net w))) = _throttle (idm w).
Proof.
  unfold IdmData_update_body. unfold_m.
  destruct (net _) as [j|e]; simpl; [|destruct (is_RequestException e); reflexivity].
  destruct (getitem_key j _) as [token|e]; simpl;
    [|destruct (is_RequestException e); reflexivity].
  destruct (getitem_key j _) as [insts|e]; simpl;
    [|destruct (is_RequestException e); reflexivity].
  destruct (getitem_index insts 0) as [first|e]; simpl;
    [|destruct (is_RequestException e); reflexivity].
  destruct (getitem_key first _) as [inst|e]; simpl;
    [|destruct (is_RequestException e); reflexivity].
  destruct (net _) as [d|e]; simpl; [|destruct (is_RequestException e)]; reflexivity.
Qed.

(** ** The client's refresh *)

(** C3.  Two calls of the client's refresh less than the throttle window
    apart perform at most one exchange with the remote side; when the first
    of them performed it, the second is a no-op: it returns [None] and leaves
    the client (its snapshot included), the log and the requests as they
    were.  On a client that was never refreshed the first call always
    performs the exchange. *)
Theorem refresh_twice_within_window
  (net1 net2 : network) (t1 t2 : Z) (w : world)
  (Hclose : (t2 - t1 < MIN_TIME_BETWEEN_UPDATES)%Z) :
  let w1 := snd (IdmData_update net1 t1 w) in
  let w2 := snd (IdmData_update net2 t2 w1) in
  (exchanges w2 <= S (exchanges w))%nat
  /\ (exchanges w1 = S (exchanges w) ->
      IdmData_update net2 t2 w1 = (Ok PNone, w1) /\ data (idm w2) = data (idm w1))
  /\ (_throttle (idm w) = None -> exchanges w1 = S (exchanges w)).
Proof.
  intros w1 w2.
  pose proof body_keeps_throttle as Hstamp.
  assert (Hran : throttled t1 w = false ->
                 IdmData_update net2 t2 w1 = (Ok PNone, w1)
                 /\ exchanges w1 = S (exchanges w)).
  { intros Hth. subst w1. rewrite (IdmData_update_through _ _ _ Hth). split.
    - apply Throttle_held with (last := t1); [|exact Hclose].
      rewrite Hstamp. reflexivity.
    - rewrite body_exchanges. reflexivity. }
  destruct (throttled t1 w) eqn:Hth.
  - (* the first call is held back *)
    assert (Hw1 : w1 = w).
    { subst w1. unfold IdmData_update, Throttle. unfold throttled in Hth.
      destruct (_throttle (idm w)); [|discriminate]. rewrite Hth. reflexivity. }
    split; [|split].
    + subst w2. rewrite Hw1.
      destruct (throttled t2 w) eqn:Hth2.
      * unfold IdmData_update, Throttle. unfold throttled in Hth2.
        destruct (_throttle (idm w)); [|discriminate]. rewrite Hth2. simpl. lia.
      * rewrite (IdmData_update_through _ _ _ Hth2), body_exchanges.
        unfold exchanges. simpl. lia.
    + rewrite Hw1. intros Habs. lia.
    + intros Hnone. unfold throttled in Hth. rewrite Hnone in Hth. discriminate.
  - destruct (Hran eq_refl) as [Hnoop Hex].
    split; [|split].
    + subst w2. rewrite Hnoop. simpl. lia.
    + intros _. split; [exact Hnoop|]. subst w2. rewrite Hnoop. reflexivity.
    + intros _. exact Hex.
Qed.

(** A client refreshed at time 0 with the remote side serving a snapshot,
    asked again 299 seconds later. *)
Lemma refresh_twice_within_window_witness :
  (299 - 0 < MIN_TIME_BETWEEN_UPDATES)%Z
  /\ (exchanges (snd (IdmData_update (serving (PDict [])) 299
                        (snd (IdmData_update (serving PNone) 0 fresh_world))))
       <= S (exchanges fresh_world))%nat.
Proof.
  split; [reflexivity|].
  exact (proj1 (refresh_twice_within_window (serving PNone) (serving (PDict [])) 0 299
                  fresh_world eq_refl)).
Defined.

(** C4.  When a network call of a refresh that the throttle lets through
    raises a timeout or any other [RequestException], the refresh catches it:
    it returns [False], the snapshot is [None] and the error is in the log. *)
Theorem refresh_catches_transport_errors
  (net : network) (now : Z) (w : world) (e : exn)
  (Hthrough : throttled now w = false)
  (Hclass : is_RequestException e = true)
  (Hraises : network_call_raises net (idm w) e) :
  exists w', IdmData_update net now w = (Ok (PBool false), w') /\ failed_refresh w w' e.
Proof.
  rewrite (IdmData_update_through _ _ _ Hthrough).
  unfold IdmData_update_body, failed_refresh. unfold_m.
  destruct Hraises as [Hlogin | j token insts first inst Hlogin Ht Hi Hf Hid Hvalues].
  - change (idm (add_log (LogDebug (utf8 "Updating IDM Terra sensors with remote API"))
                   (set_throttle now w)))
      with (idm (set_throttle now w)).
    rewrite login_request_set_throttle, Hlogin. simpl. rewrite Hclass.
    eexists. split; [reflexivity|]. simpl. split; [reflexivity|].
    rewrite <- app_assoc. reflexivity.
  - change (idm (add_log (LogDebug (utf8 "Updating IDM Terra sensors with remote API"))
                   (set_throttle now w)))
      with (idm (set_throttle now w)).
    rewrite login_request_set_throttle, Hlogin. simpl.
    rewrite Ht, Hi, Hf, Hid. simpl. rewrite Hvalues. simpl. rewrite Hclass.
    eexists. split; [reflexivity|]. simpl. split; [reflexivity|].
    rewrite <- app_assoc. reflexivity.
Qed.

(** The login call times out on a client that was never refreshed. *)
Lemma refresh_catches_transport_errors_witness :
  exists w', IdmData_update (failing (RequestException Timeout)) 0 fresh_world
             = (Ok (PBool false), w')
             /\ failed_refresh fresh_world w' (RequestException Timeout).
Proof.
  apply refresh_catches_transport_errors.
  - reflexivity.
  - reflexivity.
  - apply login_raises. reflexivity.
Defined.

Lemma known_key_cases (ty : pystr) : known_key ty = true -> In ty known_keys.
Proof.
  unfold known_key. intros H. apply existsb_exists in H as [k [Hin Heq]].
  apply str_eqb_eq in Heq. subst. exact Hin.
Qed.

(** C6.  A login answer that lacks an expected field is not handled like a
    transport error: [KeyError] (no token) or [IndexError] (no installation)
    leaves [IdmData.update], and the snapshot of the earlier refresh stays. *)
Theorem refresh_raises_on_missing_login_fields :
  let old := PDict [(utf8 "error", PStr (utf8 "0"))] in
  (fst (IdmData_update login_without_token 0 (world_holding old)) = Raise KeyError
   /\ data (idm (snd (IdmData_update login_without_token 0 (world_holding old)))) = old)
  /\ (fst (IdmData_update login_without_installation 0 (world_holding old)) = Raise IndexError
      /\ data (idm (snd (IdmData_update login_without_installation 0 (world_holding old))))
         = old).
Proof. vm_compute. repeat split. Qed.

(** With the snapshot absent, the extraction of every known key raises
    [TypeError] at its first subscript and assigns nothing. *)
Lemma extract_absent_snapshot (ty : pystr) (self : IdmHeatingSensor) (w : world) :
  known_key ty = true ->
  data (idm w) = PNone ->
  extract ty (self, w) = (Raise TypeError, (self, w)).
Proof.
  intros Hk Hd. apply known_key_cases in Hk.
  destruct w as [[u p d th] lg ps]. simpl in Hd. subst d.
  simpl in Hk.
  repeat (destruct Hk as [<-|Hk]; [vm_compute; reflexivity|]).
  contradiction.
Qed.

Lemma sensor_update_absent_snapshot
  (net : network) (now : Z) (self : IdmHeatingSensor) (w w' : world) (r : pyval) :
  known_key (type self) = true ->
  IdmData_update net now w = (Ok r, w') ->
  data (idm w') = PNone ->
  IdmHeatingSensor_update net now (self, w) = (Raise TypeError, (self, w')).
Proof.
  intros Hk Hup Hd. unfold IdmHeatingSensor_update. unfold_m. rewrite Hup. simpl.
  rewrite (extract_absent_snapshot _ _ _ Hk Hd). reflexivity.
Qed.

(** C2.  After a failed refresh the snapshot is [None], and the entity's
    [update] raises [TypeError] to its caller instead of resolving to absent:
    the value held before stays.  Shown for an entity of type [errors] that
    holds 5 when the login times out. *)
Theorem update_raises_on_absent_snapshot :
  let self := sensor_of (utf8 "errors") (PInt 5) in
  let out := IdmHeatingSensor_update (failing (RequestException Timeout)) 0
               (self, fresh_world) in
  fst out = Raise TypeError
  /\ _state (fst (snd out)) = PInt 5
  /\ data (idm (snd (snd out))) = PNone.
Proof. vm_compute. repeat split. Qed.

(** ** Entities of an unknown type *)

Lemma extract_unknown (ty : pystr) : known_key ty = false -> extract ty = ret tt.
Proof.
  unfold known_key, known_keys, SENSOR_TYPES. cbn [map fst existsb]. intros H.
  repeat (apply orb_false_elim in H; destruct H as [? H]).
  unfold extract.
  repeat match goal with Heq : str_eqb ty _ = false |- _ => rewrite Heq; clear Heq end.
  reflexivity.
Qed.

Lemma sensor_update_unknown (net : network) (now : Z) (self : IdmHeatingSensor) (w : world) :
  known_key (type self) = false ->
  IdmHeatingSensor_update net now (self, w)
  = (refresh_outcome (fst (IdmData_update net now w)),
     (self, snd (IdmData_update net now w))).
Proof.
  intros Hk. unfold IdmHeatingSensor_update. unfold_m.
  destruct (IdmData_update net now w) as [[r|e] w']; simpl.
  - rewrite (extract_unknown _ Hk). reflexivity.
  - reflexivity.
Qed.

Lemma nth_error_list_set_same {A : Type} (l : list A) (n : nat) (x v : A) :
  nth_error l n = Some x -> nth_error (list_set l n v) n = Some v.
Proof.
  revert n; induction l as [|y l IH]; intros [|n]; simpl; try discriminate; auto.
Qed.

Lemma nth_error_list_set_other {A : Type} (l : list A) (n m : nat) (v : A) :
  n <> m -> nth_error (list_set l n v) m = nth_error l m.
Proof.
  revert n m; induction l as [|y l IH]; intros [|n] [|m] Hnm; simpl;
    try reflexivity.
  - contradiction.
  - apply IH. intros ->. apply Hnm. reflexivity.
Qed.

Lemma host_update_unresolved (i : nat) (ty : pystr) (p : poll) (pf : platform) :
  known_key ty = false ->
  unresolved_at i ty pf -> unresolved_at i ty (host_update p pf).
Proof.
  intros Hk [self [Hnth [Hty Hst]]]. unfold host_update.
  destruct (Nat.eq_dec (poll_entity p) i) as [->|Hne].
  - rewrite Hnth. rewrite sensor_update_unknown by (rewrite Hty; exact Hk).
    exists self. simpl. split; [|split; assumption].
    apply nth_error_list_set_same with (x := self). exact Hnth.
  - destruct (nth_error (entities pf) (poll_entity p)) as [other|] eqn:Hother.
    + destruct (IdmHeatingSensor_update _ _ _) as [r [self' w']].
      exists self. simpl. split; [|split; assumption].
      rewrite nth_error_list_set_other by exact Hne. exact Hnth.
    + exists self. auto.
Qed.

Lemma host_run_unresolved (i : nat) (ty : pystr) (ps : list poll) (pf : platform) :
  known_key ty = false ->
  unresolved_at i ty pf -> unresolved_at i ty (host_run ps pf).
Proof.
  intros Hk. revert pf. unfold host_run.
  induction ps as [|p ps IH]; intros pf Hinv; simpl; [exact Hinv|].
  apply IH. apply host_update_unresolved; assumption.
Qed.

Section SetupFacts.

Variables sha1_hexdigest str_lower str_title : pystr -> pystr.

Lemma descriptor_of_app_new (reg : descriptors) (ty : pystr) (d : pystr * pystr * pystr) :
  descriptor_of reg ty = None -> descriptor_of (reg ++ [(ty, d)]) ty = Some d.
Proof.
  induction reg as [|[k d'] reg IH]; simpl.
  - intros _. rewrite str_eqb_refl. reflexivity.
  - destruct (str_eqb k ty); [discriminate|exact IH].
Qed.

Lemma add_resource_ok (reg : descriptors) (ents : list IdmHeatingSensor) (r : pystr) :
  exists reg' e,
    add_resource str_lower str_title (reg, ents) r = Ok (reg', ents ++ [e])
    /\ type e = str_lower r /\ _state e = PNone.
Proof.
  unfold add_resource, IdmHeatingSensor_init.
  destruct (descriptor_of reg (str_lower r)) as [[[label u] icon]|] eqn:Hd.
  - rewrite Hd. eexists _, _. split; [reflexivity|]. split; reflexivity.
  - rewrite descriptor_of_app_new by exact Hd.
    eexists _, _. split; [reflexivity|]. split; reflexivity.
Qed.

Lemma add_resources_ok (rs : list pystr) :
  forall (reg : descriptors) (ents : list IdmHeatingSensor),
  exists reg' new,
    add_resources str_lower str_title (reg, ents) rs = Ok (reg', ents ++ new)
    /\ Forall2 (fun r e => type e = str_lower r /\ _state e = PNone) rs new.
Proof.
  induction rs as [|r rs IH]; intros reg ents; cbn [add_resources].
  - exists reg, []. rewrite app_nil_r. split; [reflexivity|constructor].
  - destruct (add_resource_ok reg ents r) as [reg1 [e [Hadd [Hty Hst]]]].
    rewrite Hadd.
    destruct (IH reg1 (ents ++ [e])) as [reg2 [new [Hrest Hall]]].
    exists reg2, (e :: new). rewrite Hrest, <- app_assoc. simpl.
    split; [reflexivity|]. constructor; [split; assumption|exact Hall].
Qed.

(** [setup_platform] always succeeds and makes one unresolved entity per
    requested resource, of the lower-cased type. *)
Lemma setup_platform_entities (cfg : config) :
  exists pf,
    setup_platform sha1_hexdigest str_lower str_title cfg = Ok pf
    /\ Forall2 (fun r e => type e = str_lower r /\ _state e = PNone)
         (CONF_RESOURCES cfg) (entities pf).
Proof.
  unfold setup_platform. cbv zeta.
  destruct (add_resources_ok (CONF_RESOURCES cfg) SENSOR_TYPES []) as [reg [new [H Hall]]].
  change ([] ++ new) with new in H.
  rewrite H. eexists. split; [reflexivity|]. exact Hall.
Qed.

End SetupFacts.

Lemma Forall2_nth_error {A B : Type} (P : A -> B -> Prop) (l : list A) (l' : list B)
  (i : nat) (a : A) :
  Forall2 P l l' -> nth_error l i = Some a -> exists b, nth_error l' i = Some b /\ P a b.
Proof.
  intros H; revert i; induction H as [|x y l l' Hxy Hall IH]; intros [|i]; simpl;
    try discriminate.
  - intros [= ->]. exists y. auto.
  - apply IH.
Qed.

(** C10.  A requested key without an extraction rule: the entity's [update]
    is the client's refresh and nothing else (same outcome, same effect on
    the world, the entity untouched), and over every sequence of calls that
    the host makes on its entities the entity's value stays [None]. *)
Theorem unknown_key_stays_absent
  (sha1_hexdigest str_lower str_title : pystr -> pystr)
  (cfg : config) (pf : platform) (i : nat) (resource : pystr)
  (Hsetup : setup_platform sha1_hexdigest str_lower str_title cfg = Ok pf)
  (Hreq : nth_error (CONF_RESOURCES cfg) i = Some resource)
  (Hunknown : known_key (str_lower resource) = false) :
  (forall (net : network) (now : Z) (self : IdmHeatingSensor) (w : world),
      type self = str_lower resource ->
      IdmHeatingSensor_update net now (self, w)
      = (refresh_outcome (fst (IdmData_update net now w)),
         (self, snd (IdmData_update net now w))))
  /\ (forall ps : list poll,
        exists self, nth_error (entities (host_run ps pf)) i = Some self
                     /\ type self = str_lower resource /\ _state self = PNone).
Proof.
  split.
  - intros net now self w Hty. apply sensor_update_unknown. rewrite Hty. exact Hunknown.
  - intros ps.
    destruct (setup_platform_entities sha1_hexdigest str_lower str_title cfg)
      as [pf' [Hpf' Hall]].
    rewrite Hsetup in Hpf'. injection Hpf' as <-.
    destruct (Forall2_nth_error _ _ _ _ _ Hall Hreq) as [self [Hnth [Hty Hst]]].
    apply (host_run_unresolved i (str_lower resource) ps pf Hunknown).
    exists self. auto.
Qed.

(** The resource [Power] of [example_config]. *)
Lemma unknown_key_stays_absent_witness :
  exists pf,
    setup_platform example_sha1 ascii_lower ascii_title example_config = Ok pf
    /\ nth_error (CONF_RESOURCES example_config) 1 = Some (utf8 "Power")
    /\ known_key (ascii_lower (utf8 "Power")) = false
    /\ forall ps : list poll,
         exists self, nth_error (entities (host_run ps pf)) 1 = Some self
                      /\ type self = ascii_lower (utf8 "Power") /\ _state self = PNone.
Proof.
  destruct (setup_platform example_sha1 ascii_lower ascii_title example_config)
    as [pf|e] eqn:Hsetup; [|vm_compute in Hsetup; discriminate].
  exists pf. split; [reflexivity|]. split; [reflexivity|]. split; [reflexivity|].
  exact (proj2 (unknown_key_stays_absent example_sha1 ascii_lower ascii_title
                  example_config pf 1 (utf8 "Power") Hsetup eq_refl eq_refl)).
Defined.

(** ** The numeric branches *)

Ltac rule_cases H :=
  unfold documented_rules in H; cbn [rule_of] in H;
  repeat match type of H with
         | context [str_eqb ?k ?key] =>
             destruct (str_eqb_spec k key) as [<-|?];
             [first [discriminate H | injection H as <- <-]|]
         end;
  [..|discriminate H].

Lemma extract_numeric_branch (key : pystr) (f : source_field) (c : coercion) :
  rule_of documented_rules key = Some (f, c) ->
  numeric c = true ->
  extract key = numeric_branch f c.
Proof.
  intros H Hn. rule_cases H; try discriminate Hn; reflexivity.
Qed.

Lemma field_value_read (f : source_field) (self : IdmHeatingSensor) (w : world) (x : pyval) :
  field_value (data (idm w)) f = Some x ->
  read_field f (self, w) = (Ok x, (self, w)).
Proof.
  destruct f as [k|k]; simpl.
  - unfold top_level, heatingData. unfold_m.
    destruct (data (idm w)) as [| | | | | |d]; try discriminate. simpl.
    intros ->. reflexivity.
  - unfold first_circuit, first_circuit_of, heatingData. unfold_m.
    destruct (data (idm w)) as [| | | | | |d]; try discriminate. simpl.
    destruct (dict_get d (utf8 "circuits")) as [[| | | | |[|[| | | | | |c] l]|]|];
      try discriminate.
    simpl. intros ->. reflexivity.
Qed.

Lemma numeric_branch_run
  (f : source_field) (c : coercion) (self : IdmHeatingSensor) (w : world) (x : pyval) :
  numeric c = true ->
  field_value (data (idm w)) f = Some x ->
  numeric_branch f c (self, w)
  = match coerce_result c x with
    | Ok v => (Ok tt, (with_state self v, w))
    | Raise e => (Raise e, (self, w))
    end.
Proof.
  intros Hn Hf. unfold numeric_branch. unfold bind at 1.
  rewrite (field_value_read _ _ _ _ Hf).
  destruct c as [dict| |suffix|]; try discriminate Hn; simpl.
  - unfold_m. destruct (py_int x); reflexivity.
  - unfold assign_float_stripped. unfold_m.
    destruct (method_rstrip x suffix) as [s|e]; [|reflexivity].
    destruct (py_float s); reflexivity.
  - unfold_m. destruct (py_float x); reflexivity.
Qed.

(** ** The two translating branches *)

Lemma dict_get_set (d : list (pystr * pyval)) (k : pystr) (v : pyval) :
  dict_get (dict_set d k v) k = Some v.
Proof.
  induction d as [|[k' v'] d IH]; simpl.
  - rewrite str_eqb_refl. reflexivity.
  - destruct (str_eqb k' k) eqn:E; simpl; rewrite E; [reflexivity|exact IH].
Qed.

Lemma dict_set_set (d : list (pystr * pyval)) (k : pystr) (v1 v2 : pyval) :
  dict_set (dict_set d k v1) k v2 = dict_set d k v2.
Proof.
  induction d as [|[k' v'] d IH]; simpl.
  - rewrite str_eqb_refl. reflexivity.
  - destruct (str_eqb k' k) eqn:E; simpl; rewrite E; [reflexivity|].
    rewrite IH. reflexivity.
Qed.

Lemma dict_set_same (d : list (pystr * pyval)) (k : pystr) (v : pyval) :
  dict_get d k = Some v -> dict_set d k v = d.
Proof.
  induction d as [|[k' v'] d IH]; simpl; [discriminate|].
  destruct (str_eqb k' k).
  - intros [= ->]. reflexivity.
  - intros H. rewrite (IH H). reflexivity.
Qed.

Lemma set_data_same (w : world) : set_data (data (idm w)) w = w.
Proof. destruct w as [[u p d t] lg ps]. reflexivity. Qed.

Lemma translate_mode_loop (dict : list (pystr * pystr)) (self : IdmHeatingSensor) :
  forall (w : world) (d : list (pystr * pyval)) (s : pystr),
    data (idm w) = PDict d ->
    dict_get d (utf8 "mode") = Some (PStr s) ->
    for_each dict translate_mode (self, w)
    = (Ok tt, (self, set_data (PDict (dict_set d (utf8 "mode")
                                        (PStr (translate dict s)))) w)).
Proof.
  induction dict as [|[k v] dict IH]; intros w d s Hd Hm.
  - simpl. unfold ret. rewrite (dict_set_same _ _ _ Hm), <- Hd, set_data_same.
    reflexivity.
  - cbn [for_each]. unfold bind at 1.
    assert (Hstep : translate_mode (k, v) (self, w)
                    = (Ok tt, (self, set_data (PDict (dict_set d (utf8 "mode")
                                                 (PStr (str_replace s k v)))) w))).
    { unfold translate_mode, heatingData, store_heatingData. unfold_m.
      rewrite Hd. simpl. rewrite Hm. reflexivity. }
    rewrite Hstep.
    rewrite (IH _ (dict_set d (utf8 "mode") (PStr (str_replace s k v))) (str_replace s k v));
      [|reflexivity|apply dict_get_set].
    rewrite dict_set_set. reflexivity.
Qed.

Lemma translate_circuit_mode_loop (dict : list (pystr * pystr)) (self : IdmHeatingSensor) :
  forall (w : world) (d c : list (pystr * pyval)) (l : list pyval) (s : pystr),
    data (idm w) = PDict d ->
    dict_get d (utf8 "circuits") = Some (PList (PDict c :: l)) ->
    dict_get c (utf8 "mode") = Some (PStr s) ->
    for_each dict translate_circuit_mode (self, w)
    = (Ok tt,
       (self,
        set_data (PDict (dict_set d (utf8 "circuits")
                           (PList (PDict (dict_set c (utf8 "mode")
                                            (PStr (translate dict s))) :: l)))) w)).
Proof.
  induction dict as [|[k v] dict IH]; intros w d c l s Hd Hc Hm.
  - simpl. unfold ret.
    rewrite (dict_set_same _ _ _ Hm), (dict_set_same _ _ _ Hc), <- Hd, set_data_same.
    reflexivity.
  - cbn [for_each]. unfold bind at 1.
    assert (Hstep : translate_circuit_mode (k, v) (self, w)
                    = (Ok tt,
                       (self,
                        set_data (PDict (dict_set d (utf8 "circuits")
                                    (PList (PDict (dict_set c (utf8 "mode")
                                              (PStr (str_replace s k v))) :: l)))) w))).
    { unfold translate_circuit_mode, heatingData, store_heatingData. unfold_m.
      rewrite Hd. simpl. rewrite Hc. simpl. rewrite Hm. reflexivity. }
    rewrite Hstep.
    rewrite (IH _ (dict_set d (utf8 "circuits")
                     (PList (PDict (dict_set c (utf8 "mode")
                                      (PStr (str_replace s k v))) :: l)))
               (dict_set c (utf8 "mode") (PStr (str_replace s k v))) l
               (str_replace s k v));
      [|reflexivity|apply dict_get_set|apply dict_get_set].
    rewrite !dict_set_set. reflexivity.
Qed.

(** A label branch returns the translated string and writes it back into
    the field it was read from. *)
Lemma label_branch_run
  (key : pystr) (f : source_field) (dict : list (pystr * pystr))
  (self : IdmHeatingSensor) (w : world) (s : pystr) :
  rule_of documented_rules key = Some (f, Label dict) ->
  field_value (data (idm w)) f = Some (PStr s) ->
  extract key (self, w)
  = (Ok tt,
     (with_state self (PStr (translate dict s)),
      set_data (write_field (data (idm w)) f (PStr (translate dict s))) w)).
Proof.
  intros H Hf. rule_cases H.
  - change (extract (utf8 "mode"))
      with (for_each modeDictionary translate_mode ;;
            v <- top_level (utf8 "mode") ;; modify (set_state v)).
    simpl in Hf. destruct (data (idm w)) as [| | | | | |d] eqn:Hd; try discriminate.
    unfold bind at 1. rewrite (translate_mode_loop _ _ _ _ _ Hd Hf).
    unfold top_level, heatingData. unfold_m. simpl. rewrite dict_get_set. reflexivity.
  - change (extract (utf8 "circuit_mode"))
      with (for_each circuitModeDictionary translate_circuit_mode ;;
            v <- first_circuit (utf8 "mode") ;; modify (set_state v)).
    unfold field_value, first_circuit_of in Hf.
    destruct (data (idm w)) as [| | | | | |d] eqn:Hd; try discriminate.
    destruct (dict_get d (utf8 "circuits")) as [[| | | | |[|[| | | | | |c] l]|]|] eqn:Hc;
      try discriminate.
    unfold bind at 1. rewrite (translate_circuit_mode_loop _ _ _ _ _ _ _ Hd Hc Hf).
    unfold first_circuit, heatingData. unfold_m. simpl.
    rewrite Hc. rewrite !dict_get_set. simpl. rewrite dict_get_set. reflexivity.
Qed.

(** ** Extraction *)

Lemma sensor_update_run
  (net : network) (now : Z) (self : IdmHeatingSensor) (w w' : world) (r : pyval) :
  IdmData_update net now w = (Ok r, w') ->
  IdmHeatingSensor_update net now (self, w)
  = match extract (type self) (self, w') with
    | (Ok u, s) => (Ok u, s)
    | (Raise e, s) => if is_ValueError e then (Ok tt, set_state PNone s) else (Raise e, s)
    end.
Proof.
  intros Hup. unfold IdmHeatingSensor_update. unfold_m. rewrite Hup. reflexivity.
Qed.

Lemma documented_coercion_numeric (c : coercion) (x v : pyval) :
  numeric c = true ->
  documented_coercion c x = Some v -> coerce_result c x = Ok v.
Proof.
  destruct c as [dict| |suffix|]; try discriminate; intros _; simpl.
  - destruct (py_int x); [intros [= <-]; reflexivity|discriminate].
  - destruct x; try discriminate. simpl.
    destruct (Num.float_of_str _); [intros [= <-]; reflexivity|discriminate].
  - destruct (py_float x); [intros [= <-]; reflexivity|discriminate].
Qed.

Lemma extract_well_formed
  (key : pystr) (f : source_field) (c : coercion)
  (self : IdmHeatingSensor) (w : world) (x v : pyval) :
  rule_of documented_rules key = Some (f, c) ->
  field_value (data (idm w)) f = Some x ->
  documented_coercion c x = Some v ->
  extract key (self, w) = (Ok tt, (with_state self v, after_extraction c f v w)).
Proof.
  intros Hrule Hf Hc. destruct (numeric c) eqn:Hn.
  - rewrite (extract_numeric_branch _ _ _ Hrule Hn), (numeric_branch_run _ _ _ _ _ Hn Hf),
      (documented_coercion_numeric _ _ _ Hn Hc).
    destruct c; try discriminate Hn; reflexivity.
  - destruct c as [dict| | |]; try discriminate Hn.
    simpl in Hc. destruct x as [| | | |s| |]; try discriminate Hc.
    injection Hc as <-. apply (label_branch_run _ _ _ _ _ _ Hrule Hf).
Qed.

(** C1.  For every key with an extraction rule: when the snapshot that the
    client holds after its refresh has a well-formed value in the key's
    field, the entity's [update] returns and the entity holds the documented
    coercion of that value.  In particular [{"error": "3"}] resolves [errors]
    to the integer 3, [{"temp_outside": "21.5 °C"}] resolves [outside_temp] to
    the float 21.5 and [{"mode": "icon_auto"}] resolves [mode] to
    ["Automatik"]. *)
Theorem refresh_yields_documented_coercion :
  (forall (key : pystr) (f : source_field) (c : coercion)
          (net : network) (now : Z) (self : IdmHeatingSensor) (w w' : world)
          (r x v : pyval),
      rule_of documented_rules key = Some (f, c) ->
      type self = key ->
      IdmData_update net now w = (Ok r, w') ->
      field_value (data (idm w')) f = Some x ->
      documented_coercion c x = Some v ->
      IdmHeatingSensor_update net now (self, w)
      = (Ok tt, (with_state self v, after_extraction c f v w')))
  /\ resolves_to (utf8 "errors") (PDict [(utf8 "error", PStr (utf8 "3"))])
     = Some (PInt 3)
  /\ resolves_to (utf8 "outside_temp") (PDict [(utf8 "temp_outside", PStr (utf8 "21.5 °C"))])
     = Some (PFloat (FFin (43 # 2)))
  /\ resolves_to (utf8 "mode") (PDict [(utf8 "mode", PStr (utf8 "icon_auto"))])
     = Some (PStr (utf8 "Automatik")).
Proof.
  split; [|repeat split; vm_compute; reflexivity].
  intros key f c net now self w w' r x v Hrule Hty Hup Hf Hc.
  rewrite (sensor_update_run _ _ _ _ _ _ Hup), Hty.
  rewrite (extract_well_formed _ _ _ _ _ _ _ Hrule Hf Hc). reflexivity.
Qed.

(** The entity [heat_quantity] on a snapshot with [{"sum_heat": "1234.5 kWh"}]. *)
Lemma refresh_yields_documented_coercion_witness :
  let snapshot := PDict [(utf8 "sum_heat", PStr (utf8 "1234.5 kWh"))] in
  let self := sensor_of (utf8 "heat_quantity") PNone in
  let w' := snd (IdmData_update (serving snapshot) 0 fresh_world) in
  IdmHeatingSensor_update (serving snapshot) 0 (self, fresh_world)
  = (Ok tt, (with_state self (PFloat (FFin (2469 # 2))), w')).
Proof.
  intros snapshot self w'.
  apply (proj1 refresh_yields_documented_coercion (utf8 "heat_quantity")
           (TopField (utf8 "sum_heat")) (FloatStripped (utf8 " kWh"))
           (serving snapshot) 0%Z self fresh_world w' PNone
           (PStr (utf8 "1234.5 kWh")) (PFloat (FFin (2469 # 2))));
    vm_compute; reflexivity.
Defined.

Lemma unparseable_raises_ValueError (c : coercion) (s : pystr) :
  numeric c = true ->
  documented_coercion c (PStr s) = None ->
  coerce_result c (PStr s) = Raise ValueError.
Proof.
  destruct c as [dict| |suffix|]; try discriminate; intros _; simpl.
  - destruct (Num.int_of_str s); [discriminate|reflexivity].
  - destruct (Num.float_of_str _); [discriminate|reflexivity].
  - destruct (Num.float_of_str s); [discriminate|reflexivity].
Qed.

(** C5.  A numeric key whose field is a string that does not parse as its
    number (after the suffix characters are stripped): the entity's [update]
    returns normally with the entity resolved to [None]; the world is the one
    the client's refresh left, snapshot included, and every other entity of
    the host is as it was. *)
Theorem unparseable_field_resolves_absent
  (key : pystr) (f : source_field) (c : coercion)
  (pf : platform) (p : poll) (self : IdmHeatingSensor)
  (r : pyval) (w' : world) (s : pystr)
  (Hrule : rule_of documented_rules key = Some (f, c))
  (Hnum : numeric c = true)
  (Hself : nth_error (entities pf) (poll_entity p) = Some self)
  (Hty : type self = key)
  (Hrefresh : IdmData_update (poll_net p) (poll_time p) (shared pf) = (Ok r, w'))
  (Hfield : field_value (data (idm w')) f = Some (PStr s))
  (Hbad : documented_coercion c (PStr s) = None) :
  IdmHeatingSensor_update (poll_net p) (poll_time p) (self, shared pf)
  = (Ok tt, (with_state self PNone, w'))
  /\ shared (host_update p pf) = w'
  /\ nth_error (entities (host_update p pf)) (poll_entity p) = Some (with_state self PNone)
  /\ forall j, j <> poll_entity p ->
               nth_error (entities (host_update p pf)) j = nth_error (entities pf) j.
Proof.
  assert (Hrun : IdmHeatingSensor_update (poll_net p) (poll_time p) (self, shared pf)
                 = (Ok tt, (with_state self PNone, w'))).
  { rewrite (sensor_update_run _ _ _ _ _ _ Hrefresh), Hty.
    rewrite (extract_numeric_branch _ _ _ Hrule Hnum),
      (numeric_branch_run _ _ _ _ _ Hnum Hfield),
      (unparseable_raises_ValueError _ _ Hnum Hbad).
    reflexivity. }
  split; [exact Hrun|].
  unfold host_update. rewrite Hself, Hrun. simpl.
  split; [reflexivity|]. split.
  - apply nth_error_list_set_same with (x := self). exact Hself.
  - intros j Hj. apply nth_error_list_set_other. intros E. apply Hj. symmetry. exact E.
Qed.

(** The snapshot carries [{"sum_heat": "not-a-number kWh"}]; the host calls
    [update] on its entity [heat_quantity], which held 7. *)
Lemma unparseable_field_resolves_absent_witness :
  let p := mkPoll 0 0 (serving bad_heat_snapshot) in
  let pf' := host_update p two_entities in
  data (idm (shared pf')) = bad_heat_snapshot
  /\ nth_error (entities pf') 0
     = Some (with_state (sensor_of (utf8 "heat_quantity") (PFloat (FFin 7))) PNone)
  /\ nth_error (entities pf') 1 = Some (sensor_of (utf8 "errors") (PInt 0)).
Proof.
  intros p pf'.
  destruct (unparseable_field_resolves_absent (utf8 "heat_quantity")
              (TopField (utf8 "sum_heat")) (FloatStripped (utf8 " kWh"))
              two_entities p (sensor_of (utf8 "heat_quantity") (PFloat (FFin 7)))
              PNone (snd (IdmData_update (poll_net p) (poll_time p) (shared two_entities)))
              (utf8 "not-a-number kWh")
              eq_refl eq_refl eq_refl eq_refl eq_refl eq_refl eq_refl)
    as [_ [Hshared [Hself Hothers]]].
  subst pf'. split; [|split].
  - rewrite Hshared. reflexivity.
  - exact Hself.
  - rewrite (Hothers 1%nat); [reflexivity|discriminate].
Defined.

(** ** The throttle window *)

Lemma throttle_window_of_fresh_client (w0 : world) :
  _throttle (idm w0) = None ->
  throttle_window_is MIN_TIME_BETWEEN_UPDATES w0.
Proof.
  intros Hnone net1 net2 t1 t2 w1.
  assert (Hth : throttled t1 w0 = false) by (unfold throttled; rewrite Hnone; reflexivity).
  assert (Hstamp : _throttle (idm w1) = Some t1).
  { subst w1. rewrite (IdmData_update_through _ _ _ Hth), body_keeps_throttle. reflexivity. }
  split.
  - intros Hlt. apply Throttle_held with (last := t1); assumption.
  - intros Hge. rewrite IdmData_update_through.
    + rewrite body_exchanges. reflexivity.
    + unfold throttled. rewrite Hstamp. apply Z.ltb_ge. exact Hge.
Qed.

(** C7, as stated, fails: with a poll interval of 60 seconds configured, a
    refresh 100 seconds after the first one is still held back. *)
Lemma window_is_not_the_configured_interval :
  exists pf,
    setup_platform example_sha1 ascii_lower ascii_title example_config = Ok pf
    /\ configured_interval example_config = 60%Z
    /\ ~ throttle_window_is (configured_interval example_config) (shared pf).
Proof.
  destruct (setup_platform example_sha1 ascii_lower ascii_title example_config)
    as [pf|e] eqn:Hsetup; [|vm_compute in Hsetup; discriminate].
  exists pf. split; [reflexivity|]. split; [reflexivity|].
  intros Hwin.
  destruct (Hwin (serving PNone) (serving PNone) 0%Z 100%Z) as [_ Hruns].
  specialize (Hruns ltac:(vm_compute; discriminate)).
  vm_compute in Hsetup. injection Hsetup as <-.
  vm_compute in Hruns. discriminate Hruns.
Qed.

(** C7, amended.  Whatever poll interval the configuration supplies, the
    throttle window of the client that [setup_platform] creates is the
    constant [MIN_TIME_BETWEEN_UPDATES], 300 seconds. *)
Theorem window_is_constant
  (sha1_hexdigest str_lower str_title : pystr -> pystr) (cfg : config) (pf : platform)
  (Hsetup : setup_platform sha1_hexdigest str_lower str_title cfg = Ok pf) :
  throttle_window_is MIN_TIME_BETWEEN_UPDATES (shared pf)
  /\ MIN_TIME_BETWEEN_UPDATES = 300%Z.
Proof.
  split; [|reflexivity].
  apply throttle_window_of_fresh_client.
  unfold setup_platform in Hsetup. cbv zeta in Hsetup.
  destruct (add_resources _ _ _ _) as [[reg ents]|e]; [|discriminate].
  injection Hsetup as <-. reflexivity.
Qed.

(** [example_config], which asks for a poll interval of 60 seconds. *)
Lemma window_is_constant_witness :
  exists pf,
    setup_platform example_sha1 ascii_lower ascii_title example_config = Ok pf
    /\ throttle_window_is 300 (shared pf).
Proof.
  destruct (setup_platform example_sha1 ascii_lower ascii_title example_config)
    as [pf|e] eqn:Hsetup; [|vm_compute in Hsetup; discriminate].
  exists pf. split; [reflexivity|].
  exact (proj1 (window_is_constant example_sha1 ascii_lower ascii_title
                  example_config pf Hsetup)).
Defined.

(** ** String replacement *)

Lemma startswith_app_same (k r : pystr) : startswith k (k ++ r) = true.
Proof. induction k as [|x k IH]; simpl; [reflexivity|]. rewrite N.eqb_refl. exact IH. Qed.

Lemma startswith_split (k s : pystr) :
  startswith k s = true -> s = k ++ skipn (length k) s.
Proof.
  revert s; induction k as [|x k IH]; intros [|y s]; simpl; try discriminate;
    try reflexivity.
  intros H. apply andb_true_iff in H as [Hxy Hk]. apply N.eqb_eq in Hxy. subst y.
  rewrite <- (IH s Hk). reflexivity.
Qed.

Lemma skipn_length_app (k r : pystr) : skipn (length k) (k ++ r) = r.
Proof. induction k as [|x k IH]; simpl; [reflexivity|exact IH]. Qed.

Lemma startswith_app_compat (k w r : pystr) :
  startswith k (w ++ r) = true -> compat w k = true.
Proof.
  unfold compat. revert w; induction k as [|x k IH]; intros w H.
  - destruct w; reflexivity.
  - destruct w as [|y w]; [reflexivity|]. simpl in *.
    apply andb_true_iff in H as [Hxy Hk]. apply N.eqb_eq in Hxy. subst y.
    rewrite N.eqb_refl. simpl. exact (IH w Hk).
Qed.

Lemma replace_go_skip (k v : pystr) (n : nat) (s : pystr) :
  replace_go k v n s = replace_go k v 0 (skipn n s).
Proof.
  revert n; induction s as [|c s IH]; intros [|n]; try reflexivity.
  simpl. apply IH.
Qed.

Section Replace.

Variables k v : pystr.
Hypothesis k_nonempty : nonempty k = true.

Lemma str_replace_go (s : pystr) : str_replace s k v = replace_go k v 0 s.
Proof. unfold str_replace. destruct k; [discriminate|reflexivity]. Qed.

(** An occurrence at the head is replaced and the scan goes on behind it. *)
Lemma replace_match (r : pystr) :
  replace_go k v 0 (k ++ r) = v ++ replace_go k v 0 r.
Proof.
  destruct k as [|x k'] eqn:Hk; [discriminate|].
  change ((x :: k') ++ r) with (x :: (k' ++ r)).
  cbn [replace_go]. rewrite <- Hk.
  assert (Hs : startswith k (x :: k' ++ r) = true).
  { rewrite Hk. apply (startswith_app_same (x :: k') r). }
  rewrite Hs, replace_go_skip, Hk.
  replace (length (x :: k') - 1)%nat with (length k') by (simpl; lia).
  rewrite skipn_length_app. reflexivity.
Qed.

(** A character that starts no occurrence is copied. *)
Lemma replace_copy (c : N) (s : pystr) :
  startswith k (c :: s) = false ->
  replace_go k v 0 (c :: s) = c :: replace_go k v 0 s.
Proof. intros H. cbn [replace_go]. rewrite H. reflexivity. Qed.

(** A stretch in which no occurrence can start is copied. *)
Lemma replace_pass (w r : pystr) :
  no_start_in w k = true ->
  replace_go k v 0 (w ++ r) = w ++ replace_go k v 0 r.
Proof.
  induction w as [|c w IH]; [reflexivity|]. intros H.
  cbn [no_start_in] in H. apply andb_true_iff in H as [Hc Hw].
  change ((c :: w) ++ r) with (c :: (w ++ r)).
  rewrite replace_copy.
  - rewrite (IH Hw). reflexivity.
  - destruct (startswith k (c :: w ++ r)) eqn:E; [|reflexivity].
    apply (startswith_app_compat k (c :: w) r) in E. rewrite E in Hc. discriminate.
Qed.

(** A string [t] that the label cannot overlap heads the result only if
    it heads the original. *)
Lemma replace_head (s : pystr) :
  forall t, no_start_in t v = true ->
            startswith t (replace_go k v 0 s) = true -> startswith t s = true.
Proof.
  induction s as [|c s IH]; intros t Ht H.
  - exact H.
  - destruct t as [|y t]; [reflexivity|].
    cbn [no_start_in] in Ht. apply andb_true_iff in Ht as [Hc Htl].
    destruct (startswith k (c :: s)) eqn:E.
    + cbn [replace_go] in H. rewrite E in H.
      apply startswith_app_compat in H. unfold compat in *.
      rewrite orb_comm in H. rewrite H in Hc. discriminate.
    + rewrite (replace_copy _ _ E) in H. simpl in H. simpl.
      apply andb_true_iff in H as [Hyc Hrest]. rewrite Hyc. simpl.
      apply IH; assumption.
Qed.

(** Without an occurrence nothing is replaced. *)
Lemma replace_absent (s : pystr) :
  contains s k = false -> replace_go k v 0 s = s.
Proof.
  induction s as [|c s IH]; [reflexivity|]. intros H.
  cbn [contains] in H. apply orb_false_iff in H as [Hh Ht].
  rewrite (replace_copy _ _ Hh), (IH Ht). reflexivity.
Qed.

End Replace.

Lemma contains_pass (w k r : pystr) :
  no_start_in w k = true -> contains (w ++ r) k = contains r k.
Proof.
  induction w as [|c w IH]; [reflexivity|]. intros H.
  cbn [no_start_in] in H. apply andb_true_iff in H as [Hc Hw].
  change ((c :: w) ++ r) with (c :: (w ++ r)). cbn [contains].
  rewrite (IH Hw).
  destruct (startswith k (c :: w ++ r)) eqn:E; [|reflexivity].
  apply (startswith_app_compat k (c :: w) r) in E. rewrite E in Hc. discriminate.
Qed.

Lemma contains_tail (k r s : pystr) :
  contains (k ++ r) s = false -> contains r s = false.
Proof.
  induction k as [|x k IH]; [auto|]. intros H.
  change ((x :: k) ++ r) with (x :: (k ++ r)) in H. cbn [contains] in H.
  apply orb_false_iff in H as [_ H]. exact (IH H).
Qed.

Lemma length_induction (P : pystr -> Prop) :
  (forall s, (forall r, (length r < length s)%nat -> P r) -> P s) -> forall s, P s.
Proof.
  intros Hstep s.
  assert (H : forall n r, (length r < n)%nat -> P r).
  { induction n as [|n IH]; intros r Hr; [lia|].
    apply Hstep. intros r' Hr'. apply IH. lia. }
  apply (H (S (length s))). lia.
Qed.

Lemma split_shorter (k s : pystr) :
  nonempty k = true -> startswith k s = true ->
  (length (skipn (length k) s) < length s)%nat.
Proof.
  intros Hk Hs. rewrite (startswith_split _ _ Hs) at 2. rewrite length_app.
  destruct k; [discriminate|]. simpl. lia.
Qed.

(** Replacing one token never creates or destroys an occurrence of a token
    that is independent of it: the two replacements commute. *)
Lemma replace_commute (a b : pystr * pystr) :
  independent a b = true ->
  forall s, str_replace (str_replace s (fst a) (snd a)) (fst b) (snd b)
            = str_replace (str_replace s (fst b) (snd b)) (fst a) (snd a).
Proof.
  destruct a as [k1 v1], b as [k2 v2]. unfold independent. cbn [fst snd].
  intros H. repeat (apply andb_true_iff in H as [H ?]).
  rename H into Hk1.
  intros s. rewrite !str_replace_go by assumption.
  induction s as [s IH] using length_induction.
  destruct (startswith k1 s) eqn:E1.
  - pose proof (split_shorter _ _ Hk1 E1) as Hlen.
    rewrite (startswith_split _ _ E1).
    rewrite (replace_match k1 v1 Hk1), (replace_pass k2 v2 k1) by assumption.
    rewrite (replace_match k1 v1 Hk1), (replace_pass k2 v2 v1) by assumption.
    rewrite (IH _ Hlen). reflexivity.
  - destruct (startswith k2 s) eqn:E2.
    + assert (Hk2 : nonempty k2 = true) by assumption.
      pose proof (split_shorter _ _ Hk2 E2) as Hlen.
      rewrite (startswith_split _ _ E2).
      rewrite (replace_match k2 v2 Hk2), (replace_pass k1 v1 k2) by assumption.
      rewrite (replace_match k2 v2 Hk2), (replace_pass k1 v1 v2) by assumption.
      rewrite (IH _ Hlen). reflexivity.
    + destruct s as [|c s]; [reflexivity|].
      rewrite (replace_copy k1 v1 c s E1), (replace_copy k2 v2 c s E2).
      rewrite !replace_copy.
      * rewrite (IH s) by (simpl; lia). reflexivity.
      * destruct (startswith k1 (c :: replace_go k2 v2 0 s)) eqn:E; [|reflexivity].
        rewrite <- (replace_copy k2 v2 c s E2) in E.
        apply replace_head in E; [|assumption]. rewrite E in E1. discriminate.
      * destruct (startswith k2 (c :: replace_go k1 v1 0 s)) eqn:E; [|reflexivity].
        rewrite <- (replace_copy k1 v1 c s E1) in E.
        apply replace_head in E; [|assumption]. rewrite E in E2. discriminate.
Qed.

(** Replacing a token by a label that [k] cannot overlap creates no
    occurrence of [k]. *)
Lemma replace_keeps_absent (k2 v2 k : pystr) :
  nonempty k2 = true ->
  no_start_in v2 k = true ->
  no_start_in k v2 = true ->
  forall s, contains s k = false -> contains (replace_go k2 v2 0 s) k = false.
Proof.
  intros Hk2 Hin Hover s.
  induction s as [s IH] using length_induction. intros Habs.
  destruct (startswith k2 s) eqn:E2.
  - pose proof (split_shorter _ _ Hk2 E2) as Hlen.
    rewrite (startswith_split _ _ E2) in Habs |- *.
    rewrite (replace_match k2 v2 Hk2), (contains_pass v2 k _ Hin).
    apply (IH _ Hlen). apply contains_tail in Habs. exact Habs.
  - destruct s as [|c s]; [exact Habs|].
    rewrite (replace_copy k2 v2 c s E2). cbn [contains].
    cbn [contains] in Habs. apply orb_false_iff in Habs as [Hh Ht].
    rewrite (IH s) by (try exact Ht; simpl; lia). rewrite orb_false_r.
    destruct (startswith k (c :: replace_go k2 v2 0 s)) eqn:E; [|reflexivity].
    rewrite <- (replace_copy k2 v2 c s E2) in E.
    apply replace_head in E; [|assumption]. rewrite E in Hh. discriminate.
Qed.

(** After the replacement of a token that does not overlap its own label,
    no occurrence of the token is left. *)
Lemma replace_removes (k v : pystr) :
  nonempty k = true ->
  no_start_in v k = true ->
  no_start_in k v = true ->
  forall s, contains (replace_go k v 0 s) k = false.
Proof.
  intros Hk Hin Hover s.
  induction s as [s IH] using length_induction.
  destruct (startswith k s) eqn:E.
  - pose proof (split_shorter _ _ Hk E) as Hlen.
    rewrite (startswith_split _ _ E).
    rewrite (replace_match k v Hk), (contains_pass v k _ Hin).
    apply (IH _ Hlen).
  - destruct s as [|c s].
    + simpl. destruct k; [discriminate|reflexivity].
    + rewrite (replace_copy k v c s E). cbn [contains].
      rewrite (IH s) by (simpl; lia). rewrite orb_false_r.
      destruct (startswith k (c :: replace_go k v 0 s)) eqn:E'; [|reflexivity].
      rewrite <- (replace_copy k v c s E) in E'.
      apply replace_head in E'; [|assumption]. rewrite E' in E. discriminate.
Qed.

(** ** Translation by a dictionary *)

Lemma translate_cons (a : pystr * pystr) (d : list (pystr * pystr)) (s : pystr) :
  translate (a :: d) s = translate d (str_replace s (fst a) (snd a)).
Proof. reflexivity. Qed.

Lemma translate_app (d1 d2 : list (pystr * pystr)) (s : pystr) :
  translate (d1 ++ d2) s = translate d2 (translate d1 s).
Proof. unfold translate. apply fold_left_app. Qed.

Lemma translate_keeps_absent (k : pystr) (d : list (pystr * pystr)) :
  safe_for k d ->
  forall s, contains s k = false -> contains (translate d s) k = false.
Proof.
  induction d as [|[k2 v2] d IH]; intros Hsafe s Hs; [exact Hs|].
  rewrite translate_cons. cbn [fst snd].
  destruct (Hsafe (k2, v2) (or_introl eq_refl)) as [Hne [Hin Hover]]. cbn [fst snd] in *.
  apply IH.
  - intros b Hb. apply Hsafe. right. exact Hb.
  - rewrite str_replace_go by exact Hne. apply replace_keeps_absent; assumption.
Qed.

Lemma translate_removes (d : list (pystr * pystr)) :
  (forall a, In a d -> safe_for (fst a) d) ->
  forall s a, In a d -> contains (translate d s) (fst a) = false.
Proof.
  induction d as [|[k v] d IH]; intros Hsafe s a Ha; [contradiction|].
  rewrite translate_cons. cbn [fst snd].
  destruct Ha as [<-|Ha].
  - cbn [fst].
    destruct (Hsafe (k, v) (or_introl eq_refl) (k, v) (or_introl eq_refl))
      as [Hne [Hin Hover]]. cbn [fst snd] in *.
    apply translate_keeps_absent.
    + intros b Hb. apply (Hsafe (k, v) (or_introl eq_refl)). right. exact Hb.
    + rewrite str_replace_go by exact Hne. apply replace_removes; assumption.
  - apply IH; [|exact Ha].
    intros a' Ha' b Hb. apply (Hsafe a' (or_intror Ha')). right. exact Hb.
Qed.

Lemma translate_fixed (d : list (pystr * pystr)) (s : pystr) :
  (forall a, In a d -> nonempty (fst a) = true /\ contains s (fst a) = false) ->
  translate d s = s.
Proof.
  induction d as [|[k v] d IH]; intros H; [reflexivity|].
  rewrite translate_cons. cbn [fst snd].
  destruct (H (k, v) (or_introl eq_refl)) as [Hne Habs]. cbn [fst] in *.
  rewrite str_replace_go by exact Hne. rewrite (replace_absent k v s Habs).
  apply IH. intros a Ha. apply H. right. exact Ha.
Qed.

Lemma label_safe_safe_for (d : list (pystr * pystr)) :
  label_safe d = true ->
  forall a, In a d -> nonempty (fst a) = true /\ safe_for (fst a) d.
Proof.
  unfold label_safe. intros H a Ha.
  rewrite forallb_forall in H.
  pose proof (H a Ha) as Hrow. apply andb_true_iff in Hrow as [Hne Hall].
  split; [exact Hne|].
  intros b Hb. rewrite forallb_forall in Hall. specialize (Hall b Hb).
  apply andb_true_iff in Hall as [H1 H2].
  specialize (H b Hb). apply andb_true_iff in H as [Hnb _].
  auto.
Qed.

(** A dictionary whose tokens overlap none of its labels translates its own
    output to itself. *)
Lemma translate_idempotent (d : list (pystr * pystr)) :
  label_safe d = true ->
  forall s, translate d (translate d s) = translate d s.
Proof.
  intros Hsafe s. apply translate_fixed. intros a Ha.
  destruct (label_safe_safe_for d Hsafe a Ha) as [Hne _]. split; [exact Hne|].
  apply translate_removes; [|exact Ha].
  intros a' Ha'. apply (label_safe_safe_for d Hsafe a' Ha').
Qed.

Lemma entry_eqb_eq (a b : pystr * pystr) : entry_eqb a b = true -> a = b.
Proof.
  destruct a, b. unfold entry_eqb. cbn [fst snd]. intros H.
  apply andb_true_iff in H as [H1 H2].
  apply str_eqb_eq in H1, H2. subst. reflexivity.
Qed.

Lemma pairwise_independent_spec (d : list (pystr * pystr)) :
  pairwise_independent d = true ->
  forall a b, In a d -> In b d -> a = b \/ independent a b = true.
Proof.
  unfold pairwise_independent. intros H a b Ha Hb.
  rewrite forallb_forall in H. specialize (H a Ha).
  rewrite forallb_forall in H. specialize (H b Hb).
  apply orb_true_iff in H as [H|H]; [left; apply entry_eqb_eq; exact H|right; exact H].
Qed.

(** Entries that are pairwise independent can be applied in any order. *)
Lemma translate_permutation (d d' : list (pystr * pystr)) :
  (forall a b, In a d -> In b d -> a = b \/ independent a b = true) ->
  Permutation d d' ->
  forall s, translate d s = translate d' s.
Proof.
  intros Hind Hperm. induction Hperm as [|x l l' Hp IH|x y l|l l' l'' Hp1 IH1 Hp2 IH2];
    intros s.
  - reflexivity.
  - rewrite !translate_cons. apply IH.
    intros a b Ha Hb. apply Hind; right; assumption.
  - rewrite !translate_cons.
    destruct (Hind y x (or_introl eq_refl) (or_intror (or_introl eq_refl))) as [->|Hi].
    + reflexivity.
    + rewrite (replace_commute y x Hi). reflexivity.
  - rewrite IH1 by exact Hind. apply IH2.
    intros a b Ha Hb. apply Hind; apply (Permutation_in _ (Permutation_sym Hp1)); assumption.
Qed.

Lemma substring_free_spec (keys : list pystr) :
  substring_free keys = true ->
  forall a b, In a keys -> In b keys -> a <> b -> contains b a = false.
Proof.
  unfold substring_free. intros H a b Ha Hb Hne.
  rewrite forallb_forall in H. specialize (H a Ha).
  rewrite forallb_forall in H. specialize (H b Hb).
  apply orb_true_iff in H as [H|H].
  - apply str_eqb_eq in H. contradiction.
  - apply negb_true_iff in H. exact H.
Qed.

(** ** The two dictionaries *)

Lemma circuit_dictionary_split :
  circuitModeDictionary = circuit_entries_before_icon_1 ++ [icon_1_entry].
Proof. reflexivity. Qed.

(** C9, as stated, fails on the circuit dictionary: [icon_1] occurs inside
    [icon_12] and [icon_11], and applying [icon_1] first turns [icon_12]
    into ["manuell Kühlen2"] where the insertion order gives ["Aus"]. *)
Lemma circuit_tokens_are_nested :
  nested_tokens (map fst circuitModeDictionary)
  = [ (utf8 "icon_1", utf8 "icon_12"); (utf8 "icon_1", utf8 "icon_11") ]
  /\ Permutation (icon_1_entry :: circuit_entries_before_icon_1) circuitModeDictionary
  /\ translate circuitModeDictionary (utf8 "icon_12") = utf8 "Aus"
  /\ translate (icon_1_entry :: circuit_entries_before_icon_1) (utf8 "icon_12")
     = utf8 "manuell Kühlen2"
  /\ translate (icon_1_entry :: circuit_entries_before_icon_1) (utf8 "icon_12")
     <> translate circuitModeDictionary (utf8 "icon_12").
Proof.
  split; [vm_compute; reflexivity|].
  split; [rewrite circuit_dictionary_split; apply Permutation_cons_append|].
  split; [vm_compute; reflexivity|].
  split; [vm_compute; reflexivity|].
  vm_compute. discriminate.
Qed.

(** C9, amended.  In the mode dictionary no token is a substring of another
    and the replacements give the same result in every order.  In the
    circuit dictionary [icon_1] is a substring of [icon_12] and of [icon_11],
    and of no other token; [icon_1] comes last in insertion order, and every
    order of the other five entries followed by [icon_1] gives the result of
    the insertion order. *)
Theorem dictionary_order :
  (nested_tokens (map fst modeDictionary) = []
   /\ forall d', Permutation d' modeDictionary ->
                 forall s, translate d' s = translate modeDictionary s)
  /\ (nested_tokens (map fst circuitModeDictionary)
      = [ (utf8 "icon_1", utf8 "icon_12"); (utf8 "icon_1", utf8 "icon_11") ]
      /\ forall d', Permutation d' circuit_entries_before_icon_1 ->
                    forall s, translate (d' ++ [icon_1_entry]) s
                              = translate circuitModeDictionary s).
Proof.
  split; split; try (vm_compute; reflexivity).
  - intros d' Hperm s. symmetry. apply translate_permutation; [|apply Permutation_sym, Hperm].
    apply pairwise_independent_spec. vm_compute. reflexivity.
  - intros d' Hperm s. rewrite circuit_dictionary_split, !translate_app. f_equal.
    symmetry. apply translate_permutation; [|apply Permutation_sym, Hperm].
    apply pairwise_independent_spec. vm_compute. reflexivity.
Qed.

(** The mode dictionary in reverse order, and the circuit dictionary with
    its first two entries swapped, on a string with two tokens. *)
Lemma dictionary_order_witness :
  Permutation (rev modeDictionary) modeDictionary
  /\ translate (rev modeDictionary) (utf8 "icon_3, icon_auto")
     = translate modeDictionary (utf8 "icon_3, icon_auto")
  /\ translate ([ (utf8 "icon_24", utf8 "Zeitprogramm"); (utf8 "icon_12", utf8 "Aus");
                  (utf8 "icon_21", utf8 "Normal"); (utf8 "icon_11", utf8 "Eco");
                  (utf8 "icon_5", utf8 "manuell Heizen") ] ++ [icon_1_entry])
       (utf8 "icon_12 icon_1")
     = translate circuitModeDictionary (utf8 "icon_12 icon_1").
Proof.
  split; [apply Permutation_sym, Permutation_rev|]. split.
  - apply (proj2 (proj1 dictionary_order)). apply Permutation_sym, Permutation_rev.
  - apply (proj2 (proj2 dictionary_order)). apply perm_swap.
Defined.

(** ** Extraction and the snapshot *)

Lemma field_value_write (h : pyval) (f : source_field) (x v : pyval) :
  field_value h f = Some x -> field_value (write_field h f v) f = Some v.
Proof.
  destruct f as [k|k]; simpl.
  - destruct h as [| | | | | |d]; try discriminate. intros _. simpl. apply dict_get_set.
  - unfold first_circuit_of.
    destruct h as [| | | | | |d]; try discriminate.
    destruct (dict_get d (utf8 "circuits")) as [[| | | | |[|[| | | | | |c] l]|]|] eqn:Hc;
      try discriminate.
    intros _. simpl. rewrite dict_get_set. apply dict_get_set.
Qed.

Lemma write_field_write (h : pyval) (f : source_field) (x v1 v2 : pyval) :
  field_value h f = Some x ->
  write_field (write_field h f v1) f v2 = write_field h f v2.
Proof.
  destruct f as [k|k]; simpl.
  - destruct h as [| | | | | |d]; try discriminate. intros _. simpl.
    rewrite dict_set_set. reflexivity.
  - unfold first_circuit_of.
    destruct h as [| | | | | |d]; try discriminate.
    destruct (dict_get d (utf8 "circuits")) as [[| | | | |[|[| | | | | |c] l]|]|] eqn:Hc;
      try discriminate.
    intros _. simpl. rewrite dict_get_set, !dict_set_set. reflexivity.
Qed.

Lemma documented_dictionaries_safe (key : pystr) (f : source_field)
  (dict : list (pystr * pystr)) :
  rule_of documented_rules key = Some (f, Label dict) -> label_safe dict = true.
Proof. intros H. rule_cases H; vm_compute; reflexivity. Qed.

(** C8, as stated, fails: the extraction of [mode] stores the translated
    string in the client's snapshot. *)
Lemma extraction_rewrites_snapshot :
  let out := extract (utf8 "mode") (sensor_of (utf8 "mode") PNone, world_holding auto_snapshot) in
  fst out = Ok tt
  /\ data (idm (snd (snd out))) = auto_snapshot_translated
  /\ data (idm (snd (snd out))) <> data (idm (world_holding auto_snapshot)).
Proof.
  vm_compute. split; [reflexivity|]. split; [reflexivity|]. discriminate.
Qed.

(** C8, amended.  On a snapshot whose field for the key is well formed, the
    value that extraction resolves is the documented coercion of the field: a
    function of the snapshot and the key alone.  A numeric key leaves the
    world, snapshot included, as it is; [mode] and [circuit_mode] write the
    translated string back into the field they read.  On the state the
    first extraction left, a second one changes nothing: the value is the
    same and so is the snapshot. *)
Theorem extraction_is_repeatable
  (key : pystr) (f : source_field) (c : coercion)
  (self : IdmHeatingSensor) (w : world) (x v : pyval)
  (Hrule : rule_of documented_rules key = Some (f, c))
  (Hfield : field_value (data (idm w)) f = Some x)
  (Hwf : documented_coercion c x = Some v) :
  let out := extract key (self, w) in
  fst out = Ok tt
  /\ _state (fst (snd out)) = v
  /\ (forall self' w', data (idm w') = data (idm w) ->
                       _state (fst (snd (extract key (self', w')))) = v)
  /\ (numeric c = true -> snd (snd out) = w)
  /\ (numeric c = false ->
      data (idm (snd (snd out))) = write_field (data (idm w)) f v)
  /\ extract key (snd out) = (Ok tt, snd out).
Proof.
  intros out. subst out.
  rewrite (extract_well_formed _ _ _ _ _ _ _ Hrule Hfield Hwf). cbn [fst snd].
  split; [reflexivity|]. split; [reflexivity|]. split.
  { intros self' w' Hsame. rewrite <- Hsame in Hfield.
    rewrite (extract_well_formed _ _ _ _ _ _ _ Hrule Hfield Hwf). reflexivity. }
  split.
  { intros Hn. destruct c; try discriminate Hn; reflexivity. }
  split.
  { intros Hn. destruct c; try discriminate Hn. reflexivity. }
  destruct c as [dict| |suffix|].
  - (* a label: the second run reads what the first one wrote *)
    simpl in Hwf. destruct x as [| | | |s| |]; try discriminate Hwf.
    injection Hwf as <-. cbn [after_extraction].
    set (t := translate dict s).
    assert (Hfield' : field_value
                        (data (idm (set_data (write_field (data (idm w)) f (PStr t)) w))) f
                      = Some (PStr t)).
    { simpl. apply (field_value_write _ _ _ _ Hfield). }
    rewrite (extract_well_formed _ _ _ _ _ (PStr t) (PStr (translate dict t)) Hrule Hfield')
      by reflexivity.
    subst t.
    rewrite (translate_idempotent dict (documented_dictionaries_safe _ _ _ Hrule)).
    cbn [after_extraction]. simpl data.
    rewrite (write_field_write _ _ _ _ _ Hfield). reflexivity.
  - rewrite (extract_well_formed _ _ _ _ _ _ _ Hrule Hfield Hwf). reflexivity.
  - rewrite (extract_well_formed _ _ _ _ _ _ _ Hrule Hfield Hwf). reflexivity.
  - rewrite (extract_well_formed _ _ _ _ _ _ _ Hrule Hfield Hwf). reflexivity.
Qed.

(** The entity [mode] on the snapshot [{"mode": "icon_auto"}]. *)
Lemma extraction_is_repeatable_witness :
  let out := extract (utf8 "mode") (sensor_of (utf8 "mode") PNone, world_holding auto_snapshot) in
  _state (fst (snd out)) = PStr (utf8 "Automatik")
  /\ extract (utf8 "mode") (snd out) = (Ok tt, snd out).
Proof.
  pose proof (extraction_is_repeatable (utf8 "mode") (TopField (utf8 "mode"))
                (Label modeDictionary) (sensor_of (utf8 "mode") PNone)
                (world_holding auto_snapshot) (PStr (utf8 "icon_auto"))
                (PStr (utf8 "Automatik")) eq_refl eq_refl eq_refl) as H.
  cbv zeta in H. destruct H as [_ [Hv [_ [_ [_ Hagain]]]]].
  split; [exact Hv|exact Hagain].
Defined.

(** * Further properties of the code *)

(** ** [IdmData.update]: the exchange *)

Lemma getitem_key_not_request (x : pyval) (k : pystr) (e : exn) :
  getitem_key x k = Raise e -> is_RequestException e = false.
Proof.
  destruct x as [| | | | | |d]; simpl; try (intros [= <-]; reflexivity).
  destruct (dict_get d k); [discriminate|intros [= <-]; reflexivity].
Qed.

Lemma getitem_index_not_request (x : pyval) (i : Z) (e : exn) :
  getitem_index x i = Raise e -> is_RequestException e = false.
Proof.
  destruct x as [| | | |s|l|d]; simpl; try (intros [= <-]; reflexivity).
  - destruct (seq_index (length s) i) as [n|]; [|intros [= <-]; reflexivity].
    destruct (nth_error s n); [discriminate|intros [= <-]; reflexivity].
  - destruct (seq_index (length l) i) as [n|]; [|intros [= <-]; reflexivity].
    destruct (nth_error l n); [discriminate|intros [= <-]; reflexivity].
Qed.

(** The body, as a function of what the remote side answers. *)
Ltac solve_world :=
  unfold refreshed, set_data, add_post, add_log, set_throttle; simpl;
  rewrite <- ?app_assoc; reflexivity.

Lemma body_outcome (net : network) (now : Z) (w : world) :
  let w0 := set_throttle now w in
  let login := login_request (idm w) in
  (exists e, net login = Raise e
             /\ IdmData_update_body net w0
                = if is_RequestException e
                  then (Ok (PBool false),
                        refreshed w now PNone
                          [debug_line;
                           LogError (utf8 "Error occurred while fetching data: %r") e]
                          [login])
                  else (Raise e, refreshed w now (data (idm w)) [debug_line] [login]))
  \/ (exists j e, net login = Ok j
                  /\ is_RequestException e = false
                  /\ (forall installation token, ~ login_answers j installation token)
                  /\ IdmData_update_body net w0
                     = (Raise e, refreshed w now (data (idm w)) [debug_line] [login]))
  \/ (exists j installation token,
         net login = Ok j /\ login_answers j installation token
         /\ IdmData_update_body net w0
            = match net (values_request installation token) with
              | Ok d =>
                  (Ok PNone,
                   refreshed w now d [debug_line]
                     [login; values_request installation token])
              | Raise e =>
                  if is_RequestException e
                  then (Ok (PBool false),
                        refreshed w now PNone
                          [debug_line;
                           LogError (utf8 "Error occurred while fetching data: %r") e]
                          [login; values_request installation token])
                  else (Raise e,
                        refreshed w now (data (idm w)) [debug_line]
                          [login; values_request installation token])
              end).
Proof.
  intros w0 login. subst w0. unfold IdmData_update_body. unfold_m.
  change (login_request
            (idm (add_log (LogDebug (utf8 "Updating IDM Terra sensors with remote API"))
                    (set_throttle now w))))
    with login.
  clearbody login.
  destruct (net login) as [j|e] eqn:Hlogin.
  - destruct (getitem_key j (utf8 "token")) as [token|e] eqn:Ht.
    2:{ right; left. exists j, e. split; [reflexivity|].
        pose proof (getitem_key_not_request _ _ _ Ht) as Hne. split; [exact Hne|]. split.
        - intros i t [ins [f [H _]]]. congruence.
        - cbn. rewrite ?Hne.
          solve_world. }
    destruct (getitem_key j (utf8 "installations")) as [insts|e] eqn:Hi.
    2:{ right; left. exists j, e. split; [reflexivity|].
        pose proof (getitem_key_not_request _ _ _ Hi) as Hne. split; [exact Hne|]. split.
        - intros i t [ins [f [_ [H _]]]]. congruence.
        - cbn. rewrite ?Hne.
          solve_world. }
    destruct (getitem_index insts 0) as [first|e] eqn:Hf.
    2:{ right; left. exists j, e. split; [reflexivity|].
        pose proof (getitem_index_not_request _ _ _ Hf) as Hne. split; [exact Hne|]. split.
        - intros i t [ins [f [_ [H1 [H2 _]]]]]. congruence.
        - cbn. rewrite ?Hne.
          solve_world. }
    destruct (getitem_key first (utf8 "id")) as [inst|e] eqn:Hid.
    2:{ right; left. exists j, e. split; [reflexivity|].
        pose proof (getitem_key_not_request _ _ _ Hid) as Hne. split; [exact Hne|]. split.
        - intros i t [ins [f [_ [H1 [H2 H3]]]]]. congruence.
        - cbn. rewrite ?Hne. solve_world. }
    right; right. exists j, inst, token. split; [reflexivity|]. split.
    { exists insts, first. auto. }
    cbn.
    destruct (net (values_request inst token)) as [d|e]; cbn.
    + solve_world.
    + destruct (is_RequestException e); cbn;
        solve_world.
  - left. exists e. split; [reflexivity|]. cbn [fst snd].
    destruct (is_RequestException e); cbn;
      solve_world.
Qed.

Lemma login_answers_unique (j i1 t1 i2 t2 : pyval) :
  login_answers j i1 t1 -> login_answers j i2 t2 -> i1 = i2 /\ t1 = t2.
Proof.
  intros [ins1 [f1 [Ht1 [Hi1 [Hf1 Hid1]]]]] [ins2 [f2 [Ht2 [Hi2 [Hf2 Hid2]]]]].
  rewrite Ht1 in Ht2. injection Ht2 as <-.
  rewrite Hi1 in Hi2. injection Hi2 as <-.
  rewrite Hf1 in Hf2. injection Hf2 as <-.
  rewrite Hid1 in Hid2. injection Hid2 as <-. auto.
Qed.

(** X1.  A refresh that the throttle lets through, with the login answered
    by a token and an installation and the values call answered by [d]:
    [update] returns [None]; the snapshot is [d], whatever it was before; the
    login request and then the values request, carrying that installation
    and token, were posted; one debug line was logged. *)
Theorem refresh_stores_values_answer
  (net : network) (now : Z) (w : world) (j installation token d : pyval)
  (Hthrough : throttled now w = false)
  (Hlogin : net (login_request (idm w)) = Ok j)
  (Hfields : login_answers j installation token)
  (Hvalues : net (values_request installation token) = Ok d) :
  IdmData_update net now w
  = (Ok PNone,
     refreshed w now d [debug_line]
       [login_request (idm w); values_request installation token]).
Proof.
  rewrite (IdmData_update_through _ _ _ Hthrough).
  destruct (body_outcome net now w)
    as [[e [Hl _]] | [[j' [e [Hl [_ [Hno _]]]]] | [j' [i' [t' [Hl [Hf Hbody]]]]]]].
  - rewrite Hlogin in Hl. discriminate.
  - rewrite Hlogin in Hl. injection Hl as <-. destruct (Hno _ _ Hfields).
  - rewrite Hlogin in Hl. injection Hl as <-.
    destruct (login_answers_unique _ _ _ _ _ Hf Hfields) as [-> ->].
    rewrite Hbody, Hvalues. reflexivity.
Qed.

(** A first refresh against a remote side that serves a snapshot. *)
Lemma refresh_stores_values_answer_witness :
  data (idm (snd (IdmData_update (serving (PDict [(utf8 "error", PStr (utf8 "0"))])) 0
                    fresh_world)))
  = PDict [(utf8 "error", PStr (utf8 "0"))].
Proof.
  rewrite (refresh_stores_values_answer
             (serving (PDict [(utf8 "error", PStr (utf8 "0"))])) 0 fresh_world
             (PDict [ (utf8 "token", PStr (utf8 "t0"));
                      (utf8 "installations", PList [PDict [(utf8 "id", PInt 1)]]) ])
             (PInt 1) (PStr (utf8 "t0")) (PDict [(utf8 "error", PStr (utf8 "0"))])
             eq_refl eq_refl).
  - reflexivity.
  - exists (PList [PDict [(utf8 "id", PInt 1)]]), (PDict [(utf8 "id", PInt 1)]).
    repeat split; reflexivity.
  - reflexivity.
Defined.

(** X2.  A call of [update] posts nothing (when throttled), or the login
    request alone, or the login request followed by the values request; the
    values request is posted only when the login answered with a token and a
    first installation id, and it carries exactly those. *)
Theorem refresh_posts_login_then_values (net : network) (now : Z) (w : world) :
  let w' := snd (IdmData_update net now w) in
  let login := login_request (idm w) in
  (throttled now w = true /\ posted w' = posted w)
  \/ (throttled now w = false /\ posted w' = posted w ++ [login])
  \/ (throttled now w = false
      /\ exists j installation token,
           net login = Ok j /\ login_answers j installation token
           /\ posted w' = posted w ++ [login; values_request installation token]).
Proof.
  intros w' login. subst w'.
  destruct (throttled now w) eqn:Hth.
  - left. split; [reflexivity|].
    unfold IdmData_update, Throttle. unfold throttled in Hth.
    destruct (_throttle (idm w)); [|discriminate]. rewrite Hth. reflexivity.
  - right. rewrite (IdmData_update_through _ _ _ Hth).
    destruct (body_outcome net now w)
      as [[e [Hl Hbody]] | [[j [e [Hl [_ [_ Hbody]]]]] | [j [i [t [Hl [Hf Hbody]]]]]]];
      rewrite Hbody.
    + left. split; [reflexivity|]. destruct (is_RequestException e); reflexivity.
    + left. split; [reflexivity|]. reflexivity.
    + right. split; [reflexivity|]. exists j, i, t. split; [exact Hl|]. split; [exact Hf|].
      destruct (net (values_request i t)) as [d|e];
        [|destruct (is_RequestException e)]; reflexivity.
Qed.

(** X3.  [update] never lets a [RequestException] out, and a call that
    raises leaves the snapshot and the credentials as they were. *)
Theorem refresh_raise_keeps_snapshot
  (net : network) (now : Z) (w w' : world) (e : exn)
  (Hraise : IdmData_update net now w = (Raise e, w')) :
  is_RequestException e = false
  /\ data (idm w') = data (idm w)
  /\ credentials (idm w') = credentials (idm w).
Proof.
  destruct (throttled now w) eqn:Hth.
  - unfold IdmData_update, Throttle in Hraise. unfold throttled in Hth.
    destruct (_throttle (idm w)); [|discriminate]. rewrite Hth in Hraise. discriminate.
  - rewrite (IdmData_update_through _ _ _ Hth) in Hraise.
    destruct (body_outcome net now w)
      as [[e' [Hl Hbody]] | [[j [e' [Hl [Hne [_ Hbody]]]]] | [j [i [t [Hl [Hf Hbody]]]]]]];
      rewrite Hbody in Hraise.
    + destruct (is_RequestException e') eqn:Hc; [discriminate|].
      injection Hraise as <- <-. auto.
    + injection Hraise as <- <-. auto.
    + destruct (net (values_request i t)) as [d|e2]; [discriminate|].
      destruct (is_RequestException e2) eqn:Hc; [discriminate|].
      injection Hraise as <- <-. auto.
Qed.

(** The login answers [{}] while the client holds a snapshot. *)
Lemma refresh_raise_keeps_snapshot_witness :
  let old := PDict [(utf8 "error", PStr (utf8 "0"))] in
  is_RequestException KeyError = false
  /\ data (idm (snd (IdmData_update login_without_token 0 (world_holding old)))) = old.
Proof.
  intros old.
  destruct (refresh_raise_keeps_snapshot login_without_token 0 (world_holding old)
              (snd (IdmData_update login_without_token 0 (world_holding old)))
              KeyError eq_refl) as [Hc [Hd _]].
  split; [exact Hc|exact Hd].
Defined.

(** ** [IdmHeatingSensor.update]: what extraction touches *)

Lemma keeps_ret {A : Type} (a : A) : keeps (ret a).
Proof. intros s. split; reflexivity. Qed.

Lemma keeps_lift_result {A : Type} (r : result A) : keeps (lift_result r).
Proof. intros s. split; reflexivity. Qed.

Lemma keeps_gets {A : Type} (f : entity_state -> A) : keeps (gets f).
Proof. intros s. split; reflexivity. Qed.

Lemma keeps_set_state (v : pyval) : keeps (modify (set_state v)).
Proof. intros s. split; reflexivity. Qed.

Lemma keeps_store (v : pyval) : keeps (store_heatingData v).
Proof. intros s. split; reflexivity. Qed.

Lemma keeps_bind {A B : Type} (m : M entity_state A) (k : A -> M entity_state B) :
  keeps m -> (forall a, keeps (k a)) -> keeps (bind m k).
Proof.
  intros Hm Hk s. unfold bind. specialize (Hm s).
  destruct (m s) as [[a|e] s1]; simpl in *.
  - destruct (Hk a s1) as [H1 H2]. destruct Hm as [H3 H4]. split; congruence.
  - exact Hm.
Qed.

Lemma keeps_for_each {A : Type} (xs : list A) (body : A -> M entity_state unit) :
  (forall x, keeps (body x)) -> keeps (for_each xs body).
Proof.
  intros Hb. induction xs as [|x xs IH]; simpl.
  - apply keeps_ret.
  - apply keeps_bind; [apply Hb|intros _; exact IH].
Qed.

Lemma keeps_try_except {A : Type} (m : M entity_state A) (caught : exn -> bool)
  (h : exn -> M entity_state A) :
  keeps m -> (forall e, keeps (h e)) -> keeps (try_except m caught h).
Proof.
  intros Hm Hh s. unfold try_except. specialize (Hm s).
  destruct (m s) as [[a|e] s1]; simpl in *; [exact Hm|].
  destruct (caught e); [|exact Hm].
  destruct (Hh e s1) as [H1 H2]. destruct Hm as [H3 H4]. split; congruence.
Qed.

Ltac keeps_tac :=
  repeat first
    [ apply keeps_ret
    | apply keeps_lift_result
    | apply keeps_gets
    | apply keeps_set_state
    | apply keeps_store
    | apply keeps_for_each; intros
    | apply keeps_bind; [|intros]
    | match goal with |- keeps (match ?x with _ => _ end) => destruct x end ].

Lemma keeps_extract (ty : pystr) : keeps (extract ty).
Proof.
  unfold extract.
  repeat match goal with |- keeps (if ?b then _ else _) => destruct b end;
    unfold translate_mode, translate_circuit_mode, top_level, first_circuit,
      assign_float_stripped, heatingData;
    keeps_tac.
Qed.

Lemma refresh_keeps_credentials (net : network) (now : Z) (w : world) :
  credentials (idm (snd (IdmData_update net now w))) = credentials (idm w).
Proof.
  destruct (throttled now w) eqn:Hth.
  - unfold IdmData_update, Throttle. unfold throttled in Hth.
    destruct (_throttle (idm w)); [|discriminate]. rewrite Hth. reflexivity.
  - rewrite (IdmData_update_through _ _ _ Hth).
    destruct (body_outcome net now w)
      as [[e [_ Hbody]] | [[j [e [_ [_ [_ Hbody]]]]] | [j [i [t [_ [_ Hbody]]]]]]];
      rewrite Hbody.
    + destruct (is_RequestException e); reflexivity.
    + reflexivity.
    + destruct (net (values_request i t)) as [d|e];
        [|destruct (is_RequestException e)]; reflexivity.
Qed.

(** Beyond the client's refresh, [update] keeps the descriptor of the
    entity and the frame of the world. *)
Lemma sensor_update_frame (net : network) (now : Z) (self : IdmHeatingSensor) (w : world) :
  descriptor (fst (snd (IdmHeatingSensor_update net now (self, w)))) = descriptor self
  /\ frame (snd (snd (IdmHeatingSensor_update net now (self, w))))
     = frame (snd (IdmData_update net now w)).
Proof.
  set (body := try_except
                 (ty <- gets (fun s => type (fst s)) ;; extract ty)
                 is_ValueError
                 (fun _ => modify (set_state PNone))).
  assert (Hbody : keeps body).
  { apply keeps_try_except.
    - apply keeps_bind; [apply keeps_gets|intros ty; apply keeps_extract].
    - intros _. apply keeps_set_state. }
  unfold IdmHeatingSensor_update. fold body.
  unfold on_world, bind. cbn [fst snd].
  destruct (IdmData_update net now w) as [[r|e] w']; cbn [fst snd].
  - exact (Hbody (self, w')).
  - split; reflexivity.
Qed.

(** X4.  Whatever the outcome, a call of the entity's [update] changes
    nothing of the entity but [_state] (type, name, unit and icon stay), and
    beyond the client's own refresh it changes nothing of the world but the
    snapshot: it posts no request, logs nothing, and leaves the throttle
    stamp and the credentials alone. *)
Theorem update_touches_value_and_snapshot_only
  (net : network) (now : Z) (self : IdmHeatingSensor) (w : world) :
  let out := IdmHeatingSensor_update net now (self, w) in
  descriptor (fst (snd out)) = descriptor self
  /\ frame (snd (snd out)) = frame (snd (IdmData_update net now w))
  /\ credentials (idm (snd (snd out))) = credentials (idm w).
Proof.
  intros out. subst out.
  destruct (sensor_update_frame net now self w) as [Hd Hf].
  split; [exact Hd|]. split; [exact Hf|].
  pose proof (refresh_keeps_credentials net now w) as Hc.
  pose proof (f_equal (fun x => fst (fst (fst x))) Hf) as Hcred.
  cbn [frame fst] in Hcred. rewrite Hcred. exact Hc.
Qed.

(** ** [IdmHeatingSensor.update]: all or nothing *)

Lemma readonly_lift_result {A : Type} (r : result A) : readonly (lift_result r).
Proof. intros s. reflexivity. Qed.

Lemma readonly_gets {A : Type} (f : entity_state -> A) : readonly (gets f).
Proof. intros s. reflexivity. Qed.

Lemma readonly_bind {A B : Type} (m : M entity_state A) (k : A -> M entity_state B) :
  readonly m -> (forall a, readonly (k a)) -> readonly (bind m k).
Proof.
  intros Hm Hk s. unfold bind. specialize (Hm s).
  destruct (m s) as [[a|e] s1]; simpl in *; subst s1; [apply Hk|reflexivity].
Qed.

Lemma readonly_read_field (f : source_field) : readonly (read_field f).
Proof.
  destruct f; unfold read_field, top_level, first_circuit, heatingData;
    repeat first [apply readonly_lift_result | apply readonly_gets
                 | apply readonly_bind; [|intros]].
Qed.

Lemma atomic_modify (f : entity_state -> entity_state) : atomic (modify f).
Proof. intros s e s' H. discriminate H. Qed.

Lemma atomic_bind {A B : Type} (m : M entity_state A) (k : A -> M entity_state B) :
  readonly m -> (forall a, atomic (k a)) -> atomic (bind m k).
Proof.
  intros Hm Hk s e s'. unfold bind. specialize (Hm s).
  destruct (m s) as [[a|e0] s1]; simpl in *; subst s1.
  - apply Hk.
  - intros [= _ <-]. reflexivity.
Qed.

Lemma atomic_numeric_branch (f : source_field) (c : coercion) : atomic (numeric_branch f c).
Proof.
  unfold numeric_branch. apply atomic_bind; [apply readonly_read_field|].
  intros x. destruct c; unfold assign_float_stripped;
    repeat first [apply atomic_modify | apply atomic_bind; [apply readonly_lift_result|intros]].
Qed.

Lemma atomic_translate_mode (kv : pystr * pystr) : atomic (translate_mode kv).
Proof.
  unfold translate_mode, heatingData, store_heatingData.
  repeat first [apply atomic_modify
               | apply atomic_bind;
                 [first [apply readonly_lift_result | apply readonly_gets]|intros]].
Qed.

Lemma atomic_translate_circuit_mode (kv : pystr * pystr) : atomic (translate_circuit_mode kv).
Proof.
  unfold translate_circuit_mode, heatingData, store_heatingData.
  repeat first [apply atomic_modify
               | apply atomic_bind;
                 [first [apply readonly_lift_result | apply readonly_gets]|intros]
               | match goal with |- atomic (match ?x with _ => _ end) => destruct x end].
Qed.

(** A first iteration that returns tells the shape of the snapshot. *)
Lemma translate_mode_returns (kv : pystr * pystr) (self : IdmHeatingSensor) (w : world)
  (s1 : entity_state) :
  translate_mode kv (self, w) = (Ok tt, s1) ->
  exists d s, data (idm w) = PDict d /\ dict_get d (utf8 "mode") = Some (PStr s).
Proof.
  unfold translate_mode, heatingData, store_heatingData. unfold_m.
  destruct (data (idm w)) as [| | | | | |d]; simpl; try discriminate.
  destruct (dict_get d (utf8 "mode")) as [[| | | |s| |]|] eqn:Hm; simpl; try discriminate.
  intros _. exists d, s. auto.
Qed.

Lemma translate_circuit_mode_returns (kv : pystr * pystr) (self : IdmHeatingSensor)
  (w : world) (s1 : entity_state) :
  translate_circuit_mode kv (self, w) = (Ok tt, s1) ->
  exists d c l s,
    data (idm w) = PDict d
    /\ dict_get d (utf8 "circuits") = Some (PList (PDict c :: l))
    /\ dict_get c (utf8 "mode") = Some (PStr s).
Proof.
  unfold translate_circuit_mode, heatingData, store_heatingData. unfold_m.
  destruct (data (idm w)) as [| | | | | |d]; simpl; try discriminate.
  destruct (dict_get d (utf8 "circuits")) as [cs|] eqn:Hc; simpl; try discriminate.
  destruct (getitem_index cs 0) as [c|e] eqn:Hi; simpl; try discriminate.
  destruct c as [| | | | | |c]; simpl; try discriminate.
  destruct (dict_get c (utf8 "mode")) as [[| | | |s| |]|] eqn:Hm; simpl; try discriminate.
  destruct cs as [| | | |cs|[|c0 l]|cs]; simpl in Hi; try discriminate.
  - destruct (seq_index (length cs) 0) as [n|]; [|discriminate].
    destruct (nth_error cs n); discriminate.
  - injection Hi as ->. intros _. exists d, c, l, s. auto.
Qed.

Lemma atomic_loop_then {A B : Type} (xs : list A) (body : A -> M entity_state unit)
  (k : M entity_state B) :
  xs <> [] ->
  (forall x, atomic (body x)) ->
  (forall x s s1, body x s = (Ok tt, s1) ->
                  exists b s2, (for_each xs body ;; k) s = (Ok b, s2)) ->
  atomic (for_each xs body ;; k).
Proof.
  intros Hne Hb Hok s e s' H.
  destruct xs as [|x xs]; [contradiction|].
  destruct (body x s) as [[[]|e0] s1] eqn:Hfirst.
  - destruct (Hok x s s1 Hfirst) as [b [s2 Hwhole]]. rewrite Hwhole in H. discriminate.
  - unfold bind in H. cbn [for_each] in H. unfold bind in H. rewrite Hfirst in H.
    injection H as <- <-. apply (Hb x s e0 s1 Hfirst).
Qed.

(** The extraction of any key either returns or raises from the state it
    started in. *)
Lemma extract_atomic (ty : pystr) : atomic (extract ty).
Proof.
  destruct (known_key ty) eqn:Hk.
  2:{ rewrite (extract_unknown _ Hk). intros s e s' H. discriminate H. }
  apply known_key_cases in Hk. simpl in Hk.
  destruct Hk as [<-|[<-|Hk]].
  - (* mode *)
    apply (atomic_loop_then modeDictionary translate_mode
             (v <- top_level (utf8 "mode") ;; modify (set_state v))).
    + discriminate.
    + apply atomic_translate_mode.
    + intros kv [self w] s1 Hfirst.
      destruct (translate_mode_returns _ _ _ _ Hfirst) as [d [s [Hd Hm]]].
      eexists _, _.
      apply (label_branch_run (utf8 "mode") (TopField (utf8 "mode")) modeDictionary
               self w s eq_refl).
      simpl. rewrite Hd. exact Hm.
  - (* circuit_mode *)
    apply (atomic_loop_then circuitModeDictionary translate_circuit_mode
             (v <- first_circuit (utf8 "mode") ;; modify (set_state v))).
    + discriminate.
    + apply atomic_translate_circuit_mode.
    + intros kv [self w] s1 Hfirst.
      destruct (translate_circuit_mode_returns _ _ _ _ Hfirst)
        as [d [c [l [s [Hd [Hc Hm]]]]]].
      eexists _, _.
      apply (label_branch_run (utf8 "circuit_mode") (CircuitField (utf8 "mode"))
               circuitModeDictionary self w s eq_refl).
      unfold field_value, first_circuit_of. rewrite Hd, Hc. exact Hm.
  - repeat (destruct Hk as [<-|Hk];
            [erewrite extract_numeric_branch by reflexivity;
             apply atomic_numeric_branch|]).
    contradiction.
Qed.

(** X5.  An [update] whose client refresh returns normally either returns
    itself or raises an exception that is no [ValueError]; when it raises,
    the entity is as it was and the world is the one the client's refresh
    left: no value is assigned and the snapshot is not half translated. *)
Theorem update_raises_without_effect
  (net : network) (now : Z) (self self' : IdmHeatingSensor) (w w1 w' : world)
  (r : pyval) (e : exn)
  (Hrefresh : IdmData_update net now w = (Ok r, w1))
  (Hraise : IdmHeatingSensor_update net now (self, w) = (Raise e, (self', w'))) :
  is_ValueError e = false /\ self' = self /\ w' = w1.
Proof.
  rewrite (sensor_update_run _ _ _ _ _ _ Hrefresh) in Hraise.
  destruct (extract (type self) (self, w1)) as [[u|e0] s1] eqn:Hex; [discriminate|].
  destruct (is_ValueError e0) eqn:Hv; [discriminate|].
  injection Hraise as <- ->.
  pose proof (extract_atomic _ _ _ _ Hex) as Hs. injection Hs as -> ->. auto.
Qed.

(** The entity [outside_temp] holds 7; the snapshot has no such field. *)
Lemma update_raises_without_effect_witness :
  let self := sensor_of (utf8 "outside_temp") (PFloat (FFin 7)) in
  let out := IdmHeatingSensor_update (serving (PDict [])) 0 (self, fresh_world) in
  fst out = Raise KeyError /\ fst (snd out) = self.
Proof.
  intros self out. split; [vm_compute; reflexivity|].
  destruct (update_raises_without_effect (serving (PDict [])) 0 self (fst (snd out))
              fresh_world (snd (IdmData_update (serving (PDict [])) 0 fresh_world))
              (snd (snd out)) PNone KeyError eq_refl eq_refl) as [_ [Hself _]].
  exact Hself.
Defined.

(** ** [IdmHeatingSensor.update]: fields that are missing or no strings *)

Lemma for_each_first_raises {A B : Type} (xs : list A) (body : A -> M entity_state unit)
  (k : M entity_state B) (s s1 : entity_state) (e : exn) :
  xs <> [] ->
  (forall x, body x s = (Raise e, s1)) ->
  (for_each xs body ;; k) s = (Raise e, s1).
Proof.
  intros Hne Hb. destruct xs as [|x xs]; [contradiction|].
  unfold bind. cbn [for_each]. unfold bind. rewrite Hb. reflexivity.
Qed.

Lemma read_field_missing (f : source_field) (self : IdmHeatingSensor) (w : world)
  (e : exn) :
  missing_field (data (idm w)) f e ->
  read_field f (self, w) = (Raise e, (self, w)).
Proof.
  intros H. remember (data (idm w)) as h eqn:Hh.
  destruct H as [d k Hk|d k Hc|d k Hc|d c l k Hc Hk];
    unfold read_field, top_level, first_circuit, heatingData; unfold_m;
    rewrite <- Hh; simpl.
  - rewrite Hk. reflexivity.
  - rewrite Hc. reflexivity.
  - rewrite Hc. reflexivity.
  - rewrite Hc. simpl. rewrite Hk. reflexivity.
Qed.

Lemma translate_mode_missing (kv : pystr * pystr) (self : IdmHeatingSensor) (w : world)
  (e : exn) :
  missing_field (data (idm w)) (TopField (utf8 "mode")) e ->
  translate_mode kv (self, w) = (Raise e, (self, w)).
Proof.
  intros H. remember (data (idm w)) as h eqn:Hh.
  remember (TopField (utf8 "mode")) as f eqn:Hf.
  destruct H as [d k Hk|d k Hc|d k Hc|d c l k Hc Hk]; try discriminate Hf.
  injection Hf as ->.
  unfold translate_mode, heatingData. unfold_m. rewrite <- Hh. simpl.
  rewrite Hk. reflexivity.
Qed.

Lemma translate_circuit_mode_missing (kv : pystr * pystr) (self : IdmHeatingSensor)
  (w : world) (e : exn) :
  missing_field (data (idm w)) (CircuitField (utf8 "mode")) e ->
  translate_circuit_mode kv (self, w) = (Raise e, (self, w)).
Proof.
  intros H. remember (data (idm w)) as h eqn:Hh.
  remember (CircuitField (utf8 "mode")) as f eqn:Hf.
  destruct H as [d k Hk|d k Hc|d k Hc|d c l k Hc Hk]; try discriminate Hf;
    injection Hf as ->;
    unfold translate_circuit_mode, heatingData; unfold_m; rewrite <- Hh; simpl;
    rewrite Hc; simpl; try reflexivity.
  rewrite Hk. reflexivity.
Qed.

(** X6.  A known key whose field is missing from the snapshot (the
    top-level key, the key [circuits], the first circuit or the key inside
    it): [update] raises [KeyError], or [IndexError] for an empty list of
    circuits; the exception is not caught, the entity keeps its value and
    the snapshot stays. *)
Theorem update_raises_on_missing_field
  (key : pystr) (f : source_field) (c : coercion)
  (net : network) (now : Z) (self : IdmHeatingSensor) (w w1 : world)
  (r : pyval) (e : exn)
  (Hrule : rule_of documented_rules key = Some (f, c))
  (Hty : type self = key)
  (Hrefresh : IdmData_update net now w = (Ok r, w1))
  (Hmissing : missing_field (data (idm w1)) f e) :
  IdmHeatingSensor_update net now (self, w) = (Raise e, (self, w1))
  /\ (e = KeyError \/ e = IndexError).
Proof.
  assert (He : e = KeyError \/ e = IndexError) by (destruct Hmissing; auto).
  split; [|exact He].
  rewrite (sensor_update_run _ _ _ _ _ _ Hrefresh), Hty.
  assert (Hex : extract key (self, w1) = (Raise e, (self, w1))).
  { destruct (numeric c) eqn:Hn.
    - rewrite (extract_numeric_branch _ _ _ Hrule Hn). unfold numeric_branch, bind.
      rewrite (read_field_missing _ _ _ _ Hmissing). reflexivity.
    - destruct c as [dict| | |]; try discriminate Hn. rule_cases Hrule.
      + apply (for_each_first_raises modeDictionary translate_mode
                 (v <- top_level (utf8 "mode") ;; modify (set_state v))).
        * discriminate.
        * intros kv. apply translate_mode_missing. exact Hmissing.
      + apply (for_each_first_raises circuitModeDictionary translate_circuit_mode
                 (v <- first_circuit (utf8 "mode") ;; modify (set_state v))).
        * discriminate.
        * intros kv. apply translate_circuit_mode_missing. exact Hmissing. }
  rewrite Hex. destruct He as [-> | ->]; reflexivity.
Qed.

(** The entity [water_temp] on a snapshot without [temp_water]. *)
Lemma update_raises_on_missing_field_witness :
  let self := sensor_of (utf8 "water_temp") (PFloat (FFin 40)) in
  let snapshot := PDict [(utf8 "temp_outside", PStr (utf8 "3.5 °C"))] in
  IdmHeatingSensor_update (serving snapshot) 0 (self, fresh_world)
  = (Raise KeyError, (self, snd (IdmData_update (serving snapshot) 0 fresh_world))).
Proof.
  intros self snapshot.
  apply (proj1 (update_raises_on_missing_field (utf8 "water_temp")
                  (TopField (utf8 "temp_water")) (FloatStripped (utf8 " °C"))
                  (serving snapshot) 0 self fresh_world
                  (snd (IdmData_update (serving snapshot) 0 fresh_world))
                  PNone KeyError eq_refl eq_refl eq_refl
                  (missing_top [(utf8 "temp_outside", PStr (utf8 "3.5 °C"))]
                     (utf8 "temp_water") eq_refl))).
Defined.

(** X7.  A key that is translated or stripped ([mode], [circuit_mode] and
    the keys with a unit suffix) whose field holds something other than a
    string, such as a JSON number: the call of [replace] or [rstrip] raises
    [AttributeError], which is not caught; nothing is assigned. *)
Theorem update_raises_on_non_string_field
  (key : pystr) (f : source_field) (c : coercion)
  (net : network) (now : Z) (self : IdmHeatingSensor) (w w1 : world)
  (r x : pyval)
  (Hrule : rule_of documented_rules key = Some (f, c))
  (Hmethod : uses_str_method c = true)
  (Hty : type self = key)
  (Hrefresh : IdmData_update net now w = (Ok r, w1))
  (Hfield : field_value (data (idm w1)) f = Some x)
  (Hnostr : is_str x = false) :
  IdmHeatingSensor_update net now (self, w) = (Raise AttributeError, (self, w1)).
Proof.
  rewrite (sensor_update_run _ _ _ _ _ _ Hrefresh), Hty.
  assert (Hex : extract key (self, w1) = (Raise AttributeError, (self, w1))).
  { destruct c as [dict| |suffix|]; try discriminate Hmethod.
    - rule_cases Hrule.
      + apply (for_each_first_raises modeDictionary translate_mode
                 (v <- top_level (utf8 "mode") ;; modify (set_state v))).
        * discriminate.
        * intros kv. unfold translate_mode, heatingData. unfold_m.
          simpl in Hfield. destruct (data (idm w1)) as [| | | | | |d]; try discriminate.
          simpl. rewrite Hfield. destruct x; try discriminate Hnostr; reflexivity.
      + apply (for_each_first_raises circuitModeDictionary translate_circuit_mode
                 (v <- first_circuit (utf8 "mode") ;; modify (set_state v))).
        * discriminate.
        * intros kv. unfold translate_circuit_mode, heatingData. unfold_m.
          unfold field_value, first_circuit_of in Hfield.
          destruct (data (idm w1)) as [| | | | | |d]; try discriminate.
          destruct (dict_get d (utf8 "circuits"))
            as [[| | | | |[|[| | | | | |cd] l]|]|] eqn:Hc; try discriminate.
          simpl. rewrite Hc. simpl. rewrite Hfield.
          destruct x; try discriminate Hnostr; reflexivity.
    - rewrite (extract_numeric_branch _ _ (FloatStripped suffix) Hrule eq_refl).
      rewrite (numeric_branch_run _ (FloatStripped suffix) _ _ _ eq_refl Hfield). simpl.
      destruct x; try discriminate Hnostr; reflexivity. }
  rewrite Hex. reflexivity.
Qed.

(** The entity [outside_temp] when the field is the JSON number 3. *)
Lemma update_raises_on_non_string_field_witness :
  let self := sensor_of (utf8 "outside_temp") PNone in
  let snapshot := PDict [(utf8 "temp_outside", PInt 3)] in
  IdmHeatingSensor_update (serving snapshot) 0 (self, fresh_world)
  = (Raise AttributeError, (self, snd (IdmData_update (serving snapshot) 0 fresh_world))).
Proof.
  intros self snapshot.
  apply (update_raises_on_non_string_field (utf8 "outside_temp")
           (TopField (utf8 "temp_outside")) (FloatStripped (utf8 " °C"))
           (serving snapshot) 0 self fresh_world
           (snd (IdmData_update (serving snapshot) 0 fresh_world))
           PNone (PInt 3) eq_refl eq_refl eq_refl eq_refl eq_refl eq_refl).
Defined.

(** ** The translated strings *)

Lemma write_field_same (h : pyval) (f : source_field) (x : pyval) :
  field_value h f = Some x -> write_field h f x = h.
Proof.
  destruct f as [k|k]; simpl.
  - destruct h as [| | | | | |d]; try discriminate. intros H.
    rewrite (dict_set_same _ _ _ H). reflexivity.
  - unfold first_circuit_of.
    destruct h as [| | | | | |d]; try discriminate.
    destruct (dict_get d (utf8 "circuits")) as [[| | | | |[|[| | | | | |c] l]|]|] eqn:Hc;
      try discriminate.
    intros H. rewrite (dict_set_same _ _ _ H), (dict_set_same _ _ _ Hc). reflexivity.
Qed.

Lemma token_free_fixed (dict : list (pystr * pystr)) (s : pystr) :
  label_safe dict = true -> token_free dict s = true -> translate dict s = s.
Proof.
  intros Hsafe Hfree. apply translate_fixed. intros a Ha.
  destruct (label_safe_safe_for dict Hsafe a Ha) as [Hne _]. split; [exact Hne|].
  unfold token_free in Hfree. rewrite forallb_forall in Hfree.
  apply negb_true_iff. apply Hfree. exact Ha.
Qed.

(** X8.  A [mode] or [circuit_mode] string that contains none of the codes
    of its dictionary passes through verbatim: [update] resolves the entity
    to the string itself and the snapshot is the one the client's refresh
    left. *)
Theorem update_passes_unknown_codes_through
  (key : pystr) (f : source_field) (dict : list (pystr * pystr))
  (net : network) (now : Z) (self : IdmHeatingSensor) (w w1 : world)
  (r : pyval) (s : pystr)
  (Hrule : rule_of documented_rules key = Some (f, Label dict))
  (Hty : type self = key)
  (Hrefresh : IdmData_update net now w = (Ok r, w1))
  (Hfield : field_value (data (idm w1)) f = Some (PStr s))
  (Hfree : token_free dict s = true) :
  IdmHeatingSensor_update net now (self, w) = (Ok tt, (with_state self (PStr s), w1)).
Proof.
  rewrite (sensor_update_run _ _ _ _ _ _ Hrefresh), Hty.
  rewrite (label_branch_run _ _ _ _ _ _ Hrule Hfield).
  rewrite (token_free_fixed dict s (documented_dictionaries_safe _ _ _ Hrule) Hfree).
  rewrite (write_field_same _ _ _ Hfield), set_data_same. reflexivity.
Qed.

(** The mode string [icon_7], which the dictionary does not know. *)
Lemma update_passes_unknown_codes_through_witness :
  let self := sensor_of (utf8 "mode") PNone in
  let snapshot := PDict [(utf8 "mode", PStr (utf8 "icon_7"))] in
  IdmHeatingSensor_update (serving snapshot) 0 (self, fresh_world)
  = (Ok tt, (with_state self (PStr (utf8 "icon_7")),
             snd (IdmData_update (serving snapshot) 0 fresh_world))).
Proof.
  intros self snapshot.
  apply (update_passes_unknown_codes_through (utf8 "mode") (TopField (utf8 "mode"))
           modeDictionary (serving snapshot) 0 self fresh_world
           (snd (IdmData_update (serving snapshot) 0 fresh_world))
           PNone (utf8 "icon_7") eq_refl eq_refl eq_refl eq_refl eq_refl).
Defined.

(** X9.  In both dictionaries every code, taken alone, is translated to its
    own label by the replacements in insertion order; in particular
    [icon_12] and [icon_11] are not caught by [icon_1], which they contain. *)
Theorem every_code_gets_its_label :
  Forall (fun kv => translate modeDictionary (fst kv) = snd kv) modeDictionary
  /\ Forall (fun kv => translate circuitModeDictionary (fst kv) = snd kv)
       circuitModeDictionary.
Proof.
  split; repeat constructor; vm_compute; reflexivity.
Qed.

(** X10.  Whatever the string, its translation by either dictionary
    contains none of the codes of that dictionary any more. *)
Theorem translation_leaves_no_code (s : pystr) :
  token_free modeDictionary (translate modeDictionary s) = true
  /\ token_free circuitModeDictionary (translate circuitModeDictionary s) = true.
Proof.
  assert (H : forall dict, label_safe dict = true ->
                           token_free dict (translate dict s) = true).
  { intros dict Hsafe. unfold token_free. apply forallb_forall. intros a Ha.
    apply negb_true_iff. apply translate_removes; [|exact Ha].
    intros a' Ha'. apply (label_safe_safe_for dict Hsafe a' Ha'). }
  split; apply H; vm_compute; reflexivity.
Qed.

(** ** [setup_platform] *)

Lemma descriptor_of_app_keep (reg ext : descriptors) (ty : pystr) (d : pystr * pystr * pystr) :
  descriptor_of reg ty = Some d -> descriptor_of (reg ++ ext) ty = Some d.
Proof.
  induction reg as [|[k d'] reg IH]; simpl; [discriminate|].
  destruct (str_eqb k ty); [auto|exact IH].
Qed.




Section SetupMore.

Variables str_lower str_title : pystr -> pystr.

Lemma entity_for_app (reg ext : descriptors) (r : pystr) (e : IdmHeatingSensor) :
  entity_for str_lower reg r e -> entity_for str_lower (reg ++ ext) r e.
Proof.
  intros [Hty [Hst [label [Hd Hn]]]]. split; [exact Hty|]. split; [exact Hst|].
  exists label. split; [|exact Hn]. apply descriptor_of_app_keep. exact Hd.
Qed.

(** One step of the loop: the table grows by at most the entry made up for
    the type, and the entity is made from the table. *)
Lemma add_resource_spec (reg : descriptors) (ents : list IdmHeatingSensor) (r : pystr) :
  exists ext e,
    add_resource str_lower str_title (reg, ents) r = Ok (reg ++ ext, ents ++ [e])
    /\ entity_for str_lower (reg ++ ext) r e
    /\ ((ext = [] /\ descriptor_of reg (str_lower r) <> None)
        \/ (ext = [(str_lower r, generated_descriptor str_title (str_lower r))]
            /\ descriptor_of reg (str_lower r) = None)).
Proof.
  unfold add_resource, IdmHeatingSensor_init, entity_for.
  destruct (descriptor_of reg (str_lower r)) as [[[label u] icon]|] eqn:Hd.
  - exists [], (mkSensor (str_lower r) (SENSOR_PREFIX ++ label) u icon PNone).
    rewrite app_nil_r, Hd. split; [reflexivity|]. split.
    + simpl. split; [reflexivity|]. split; [reflexivity|]. exists label. auto.
    + left. split; [reflexivity|discriminate].
  - rewrite (descriptor_of_app_new reg (str_lower r) _ Hd).
    eexists _, _. split; [reflexivity|]. split.
    + simpl. split; [reflexivity|]. split; [reflexivity|].
      eexists. split; [|reflexivity].
      apply (descriptor_of_app_new reg (str_lower r) _ Hd).
    + right. split; reflexivity.
Qed.

Lemma add_resources_entities (rs : list pystr) :
  forall (reg : descriptors) (ents : list IdmHeatingSensor),
  exists ext new,
    add_resources str_lower str_title (reg, ents) rs = Ok (reg ++ ext, ents ++ new)
    /\ Forall2 (entity_for str_lower (reg ++ ext)) rs new.
Proof.
  induction rs as [|r rs IH]; intros reg ents; cbn [add_resources].
  - exists [], []. rewrite !app_nil_r. split; [reflexivity|constructor].
  - destruct (add_resource_spec reg ents r) as [ext1 [e [Hadd [He _]]]]. rewrite Hadd. cbv beta iota.
    destruct (IH (reg ++ ext1) (ents ++ [e])) as [ext2 [new [Hrest Hall]]].
    exists (ext1 ++ ext2), (e :: new). split.
    + rewrite app_assoc. change (ents ++ e :: new) with (ents ++ [e] ++ new).
      rewrite (app_assoc ents). exact Hrest.
    + rewrite app_assoc. constructor; [|exact Hall].
      apply entity_for_app. exact He.
Qed.


End SetupMore.

(** X11.  [setup_platform] never raises.  It logs one debug line and makes
    one client, never refreshed, holding the user name and the SHA-1 digest of
    the password; it makes one entity per requested resource, in order, of
    the lower-cased type, with no value, and with name, unit and icon taken
    from the entry of its type in the table ([Heating ] put before the
    label). *)
Theorem setup_makes_one_entity_per_resource
  (sha1_hexdigest str_lower str_title : pystr -> pystr) (cfg : config) :
  exists pf,
    setup_platform sha1_hexdigest str_lower str_title cfg = Ok pf
    /\ shared pf
       = mkWorld (mkIdmData (CONF_USERNAME cfg) (sha1_hexdigest (CONF_PASSWORD cfg))
                    PNone None)
                 [LogDebug (utf8 "Setup IDM Terra sensors")] []
    /\ Forall2 (entity_for str_lower (registry pf)) (CONF_RESOURCES cfg) (entities pf).
Proof.
  unfold setup_platform. cbv zeta.
  destruct (add_resources_entities str_lower str_title (CONF_RESOURCES cfg) SENSOR_TYPES [])
    as [ext [new [H Hall]]].
  change ([] ++ new) with new in H. rewrite H.
  eexists. split; [reflexivity|]. split; [reflexivity|]. exact Hall.
Qed.



(** ** The host's calls *)

Lemma host_update_shared (p : poll) (pf : platform) :
  (nth_error (entities pf) (poll_entity p) = None /\ host_update p pf = pf)
  \/ (exists self,
        nth_error (entities pf) (poll_entity p) = Some self
        /\ frame (shared (host_update p pf))
           = frame (snd (IdmData_update (poll_net p) (poll_time p) (shared pf)))).
Proof.
  unfold host_update.
  destruct (nth_error (entities pf) (poll_entity p)) as [self|]; [right|left; auto].
  exists self. split; [reflexivity|].
  pose proof (sensor_update_frame (poll_net p) (poll_time p) self (shared pf)) as [_ Hf].
  destruct (IdmHeatingSensor_update (poll_net p) (poll_time p) (self, shared pf))
    as [r [self' w']]. exact Hf.
Qed.

Lemma frame_exchanges (w w' : world) :
  frame w = frame w' -> exchanges w = exchanges w' /\ _throttle (idm w) = _throttle (idm w').
Proof.
  intros H.
  pose proof (f_equal snd H) as Hp. pose proof (f_equal (fun x => snd (fst (fst x))) H) as Ht.
  cbn [frame fst snd] in Hp, Ht. unfold exchanges. rewrite Hp, Ht. auto.
Qed.

Lemma frame_posted (w w' : world) :
  frame w = frame w' ->
  posted w = posted w' /\ credentials (idm w) = credentials (idm w').
Proof.
  intros H.
  pose proof (f_equal snd H) as Hp. pose proof (f_equal (fun x => fst (fst (fst x))) H) as Hc.
  cbn [frame fst snd] in Hp, Hc. auto.
Qed.

Lemma refresh_held (net : network) (now : Z) (w : world) :
  throttled now w = true -> IdmData_update net now w = (Ok PNone, w).
Proof.
  unfold throttled, IdmData_update, Throttle.
  destruct (_throttle (idm w)); [|discriminate]. intros ->. reflexivity.
Qed.

Lemma refresh_through_stamp (net : network) (now : Z) (w : world) :
  throttled now w = false ->
  exchanges (snd (IdmData_update net now w)) = S (exchanges w)
  /\ _throttle (idm (snd (IdmData_update net now w))) = Some now.
Proof.
  intros Hth. rewrite (IdmData_update_through _ _ _ Hth).
  rewrite body_exchanges, body_keeps_throttle. split; reflexivity.
Qed.

(** After an exchange at [t], calls made less than the window after [t]
    perform none. *)
Lemma host_run_quiet (t : Z) (ps : list poll) :
  forall pf,
    _throttle (idm (shared pf)) = Some t ->
    Forall (fun p => (poll_time p - t < MIN_TIME_BETWEEN_UPDATES)%Z) ps ->
    exchanges (shared (host_run ps pf)) = exchanges (shared pf).
Proof.
  unfold host_run. induction ps as [|p ps IH]; intros pf Hst Hall; [reflexivity|].
  inversion Hall as [|? ? Hp Hrest]; subst. simpl.
  destruct (host_update_shared p pf) as [[_ ->] | [self [_ Hf]]]; [exact (IH pf Hst Hrest)|].
  assert (Hth : throttled (poll_time p) (shared pf) = true).
  { unfold throttled. rewrite Hst. apply Z.ltb_lt. exact Hp. }
  rewrite (refresh_held _ _ _ Hth) in Hf. cbn [snd] in Hf.
  destruct (frame_exchanges _ _ Hf) as [He Ht].
  rewrite IH; [exact He| rewrite Ht; exact Hst | exact Hrest].
Qed.

(** X13.  All entities share one client: however many entities the host
    polls and however often, calls that all fall into one window of 300
    seconds perform at most one exchange with the remote side. *)
Theorem one_exchange_per_window (t0 : Z) (ps : list poll) (pf : platform)
  (Hwindow : within_one_window t0 ps) :
  (exchanges (shared (host_run ps pf)) <= S (exchanges (shared pf)))%nat.
Proof.
  unfold within_one_window in Hwindow. revert pf.
  induction ps as [|p ps IH]; intros pf; [simpl; lia|].
  inversion Hwindow as [|? ? Hp Hrest]; subst.
  change (host_run (p :: ps) pf) with (host_run ps (host_update p pf)).
  destruct (host_update_shared p pf) as [[_ ->] | [self [_ Hf]]]; [exact (IH Hrest pf)|].
  destruct (throttled (poll_time p) (shared pf)) eqn:Hth.
  - rewrite (refresh_held _ _ _ Hth) in Hf. cbn [snd] in Hf.
    destruct (frame_exchanges _ _ Hf) as [He _].
    specialize (IH Hrest (host_update p pf)). rewrite He in IH. exact IH.
  - destruct (refresh_through_stamp (poll_net p) _ _ Hth) as [Hex Hst].
    destruct (frame_exchanges _ _ Hf) as [He Ht].
    rewrite (host_run_quiet (poll_time p)).
    + rewrite He, Hex. lia.
    + rewrite Ht. exact Hst.
    + eapply Forall_impl; [|exact Hrest]. intros q Hq. simpl in Hq. lia.
Qed.

(** Two entities polled three times within five minutes. *)
Lemma one_exchange_per_window_witness :
  (exchanges (shared (host_run [ mkPoll 0 0 (serving bad_heat_snapshot);
                                 mkPoll 1 1 (serving bad_heat_snapshot);
                                 mkPoll 0 299 (serving bad_heat_snapshot) ]
                        two_entities))
   <= 1)%nat.
Proof.
  apply (one_exchange_per_window 0 _ two_entities).
  repeat constructor; simpl; lia.
Defined.

Lemma login_request_shape (self : IdmData) :
  platform_request (credentials self) (login_request self).
Proof.
  unfold platform_request. split; [reflexivity|]. split; [reflexivity|].
  left. split; reflexivity.
Qed.

Lemma values_request_shape (creds : pystr * pystr) (installation token : pyval) :
  platform_request creds (values_request installation token).
Proof.
  unfold platform_request. split; [reflexivity|]. split; [reflexivity|].
  right. split; [reflexivity|]. exists installation, token. reflexivity.
Qed.

Lemma refresh_posted_shape (net : network) (now : Z) (w : world) :
  exists rs,
    posted (snd (IdmData_update net now w)) = posted w ++ rs
    /\ Forall (platform_request (credentials (idm w))) rs.
Proof.
  destruct (throttled now w) eqn:Hth.
  - rewrite (refresh_held _ _ _ Hth). exists []. rewrite app_nil_r. split; [reflexivity|constructor].
  - rewrite (IdmData_update_through _ _ _ Hth).
    pose proof (login_request_shape (idm w)) as Hl.
    destruct (body_outcome net now w)
      as [[e [_ Hbody]] | [[j [e [_ [_ [_ Hbody]]]]] | [j [i [t [_ [_ Hbody]]]]]]];
      rewrite Hbody.
    + exists [login_request (idm w)].
      split; [destruct (is_RequestException e); reflexivity|]. constructor; [exact Hl|constructor].
    + exists [login_request (idm w)]. split; [reflexivity|]. constructor; [exact Hl|constructor].
    + exists [login_request (idm w); values_request i t]. split.
      * destruct (net (values_request i t)) as [d|e];
          [|destruct (is_RequestException e)]; reflexivity.
      * constructor; [exact Hl|]. constructor; [apply values_request_shape|constructor].
Qed.

Lemma host_run_requests (creds : pystr * pystr) (ps : list poll) :
  forall pf,
    credentials (idm (shared pf)) = creds ->
    Forall (platform_request creds) (posted (shared pf)) ->
    Forall (platform_request creds) (posted (shared (host_run ps pf))).
Proof.
  unfold host_run. induction ps as [|p ps IH]; intros pf Hc Hall; [exact Hall|].
  simpl. destruct (host_update_shared p pf) as [[_ ->] | [self [_ Hf]]]; [exact (IH pf Hc Hall)|].
  destruct (frame_posted _ _ Hf) as [Hp Hcred].
  destruct (refresh_posted_shape (poll_net p) (poll_time p) (shared pf)) as [rs [Hrs Hshape]].
  apply IH.
  - rewrite Hcred, refresh_keeps_credentials. exact Hc.
  - rewrite Hp, Hrs. apply Forall_app. split; [exact Hall|]. rewrite <- Hc. exact Hshape.
Qed.

(** X14.  Over every sequence of calls that the host makes after
    [setup_platform], each request the platform posts has the timeout 10 and
    the [User-Agent] header of the IDM app, and is either a login request
    with the configured user name and the SHA-1 digest of the password, or a
    values request with an installation and a token. *)
Theorem platform_posts_only_its_two_requests
  (sha1_hexdigest str_lower str_title : pystr -> pystr)
  (cfg : config) (pf : platform) (ps : list poll)
  (Hsetup : setup_platform sha1_hexdigest str_lower str_title cfg = Ok pf) :
  Forall (platform_request (CONF_USERNAME cfg, sha1_hexdigest (CONF_PASSWORD cfg)))
    (posted (shared (host_run ps pf))).
Proof.
  unfold setup_platform in Hsetup. cbv zeta in Hsetup.
  destruct (add_resources _ _ _ _) as [[reg ents]|e]; [|discriminate].
  injection Hsetup as <-.
  apply host_run_requests; [reflexivity|constructor].
Qed.

(** The two entities of [example_config], polled one after the other. *)
Lemma platform_posts_only_its_two_requests_witness :
  exists pf,
    setup_platform example_sha1 ascii_lower ascii_title example_config = Ok pf
    /\ Forall (platform_request (CONF_USERNAME example_config,
                                   example_sha1 (CONF_PASSWORD example_config)))
         (posted (shared (host_run [ mkPoll 0 0 (serving auto_snapshot);
                                     mkPoll 1 400 (failing (RequestException Timeout)) ]
                            pf))).
Proof.
  destruct (setup_platform example_sha1 ascii_lower ascii_title example_config)
    as [pf|e] eqn:Hsetup; [|vm_compute in Hsetup; discriminate].
  exists pf. split; [reflexivity|].
  exact (platform_posts_only_its_two_requests example_sha1 ascii_lower ascii_title
           example_config pf _ Hsetup).
Defined.

(** ** What a refresh tells its caller, and what follows a failed one *)

(** X15.  [update] returns [None] or [False] or raises.  [None] means that
    the call was held back by the throttle and changed nothing, or that the
    login and the values call were both answered and the snapshot is the
    values answer; [False] means that a call raised a [RequestException],
    which is now the last line of the log, and that the snapshot is [None]. *)
Theorem refresh_return_value (net : network) (now : Z) (w : world) :
  match IdmData_update net now w with
  | (Ok PNone, w') =>
      (throttled now w = true /\ w' = w)
      \/ (throttled now w = false
          /\ exists j installation token,
               net (login_request (idm w)) = Ok j
               /\ login_answers j installation token
               /\ net (values_request installation token) = Ok (data (idm w')))
  | (Ok (PBool false), w') =>
      throttled now w = false
      /\ data (idm w') = PNone
      /\ exists e, is_RequestException e = true
                   /\ logged w' = logged w ++
                        [ debug_line;
                          LogError (utf8 "Error occurred while fetching data: %r") e ]
  | (Ok _, _) => False
  | (Raise e, _) => is_RequestException e = false
  end.
Proof.
  destruct (throttled now w) eqn:Hth.
  - rewrite (refresh_held _ _ _ Hth). left. auto.
  - rewrite (IdmData_update_through _ _ _ Hth).
    destruct (body_outcome net now w)
      as [[e [Hl Hbody]] | [[j [e [Hl [Hne [_ Hbody]]]]] | [j [i [t [Hl [Hf Hbody]]]]]]];
      rewrite Hbody.
    + destruct (is_RequestException e) eqn:Hc; [|exact Hc].
      split; [reflexivity|]. split; [reflexivity|]. exists e. split; [exact Hc|reflexivity].
    + exact Hne.
    + destruct (net (values_request i t)) as [d|e] eqn:Hv.
      * right. split; [reflexivity|]. exists j, i, t. auto.
      * destruct (is_RequestException e) eqn:Hc; [|exact Hc].
        split; [reflexivity|]. split; [reflexivity|]. exists e. split; [exact Hc|reflexivity].
Qed.

Lemma refresh_failed_state (net : network) (now : Z) (w : world) (e : exn) :
  throttled now w = false ->
  is_RequestException e = true ->
  network_call_raises net (idm w) e ->
  data (idm (snd (IdmData_update net now w))) = PNone
  /\ _throttle (idm (snd (IdmData_update net now w))) = Some now.
Proof.
  intros Hth Hc Hraises. rewrite (IdmData_update_through _ _ _ Hth).
  destruct (body_outcome net now w)
    as [[e' [Hl Hbody]] | [[j [e' [Hl [Hne [Hno Hbody]]]]] | [j [i [t [Hl [Hf Hbody]]]]]]];
    rewrite Hbody.
  - destruct Hraises as [Hlogin | j' token insts first inst Hlogin].
    + rewrite Hlogin in Hl. injection Hl as <-. rewrite Hc. split; reflexivity.
    + rewrite Hlogin in Hl. discriminate.
  - exfalso. destruct Hraises as [Hlogin | j' token insts first inst Hlogin Ht Hi Hfi Hid Hv].
    + rewrite Hlogin in Hl. discriminate.
    + rewrite Hlogin in Hl. injection Hl as <-.
      apply (Hno inst token). exists insts, first. auto.
  - destruct Hraises as [Hlogin | j' token insts first inst Hlogin Ht Hi Hfi Hid Hv].
    + rewrite Hlogin in Hl. discriminate.
    + rewrite Hlogin in Hl. injection Hl as <-.
      assert (Hfields : login_answers j' inst token) by (exists insts, first; auto).
      destruct (login_answers_unique _ _ _ _ _ Hf Hfields) as [-> ->].
      rewrite Hv, Hc. split; reflexivity.
Qed.

(** X16.  A refresh that failed on a transport error at time [now] is not
    tried again before the window has passed: until then every [update] of
    an entity of a known type finds the snapshot [None] and raises
    [TypeError], posting nothing and leaving the entity as it was. *)
Theorem failed_refresh_is_not_retried_within_window
  (net net' : network) (now later : Z) (w : world) (e : exn) (self : IdmHeatingSensor)
  (Hthrough : throttled now w = false)
  (Hclass : is_RequestException e = true)
  (Hraises : network_call_raises net (idm w) e)
  (Hsoon : (later - now < MIN_TIME_BETWEEN_UPDATES)%Z)
  (Hknown : known_key (type self) = true) :
  let w1 := snd (IdmData_update net now w) in
  IdmHeatingSensor_update net' later (self, w1) = (Raise TypeError, (self, w1)).
Proof.
  intros w1.
  destruct (refresh_failed_state net now w e Hthrough Hclass Hraises) as [Hd Hst].
  fold w1 in Hd, Hst.
  assert (Hheld : IdmData_update net' later w1 = (Ok PNone, w1)).
  { apply refresh_held. unfold throttled. rewrite Hst. apply Z.ltb_lt. exact Hsoon. }
  apply (sensor_update_absent_snapshot net' later self w1 w1 PNone Hknown Hheld Hd).
Qed.

(** The login times out at time 0; the entity [errors] is polled a minute
    later, when the remote side would answer. *)
Lemma failed_refresh_is_not_retried_within_window_witness :
  let w1 := snd (IdmData_update (failing (RequestException Timeout)) 0 fresh_world) in
  let self := sensor_of (utf8 "errors") (PInt 0) in
  IdmHeatingSensor_update (serving bad_heat_snapshot) 60 (self, w1)
  = (Raise TypeError, (self, w1)).
Proof.
  intros w1 self.
  apply (failed_refresh_is_not_retried_within_window
           (failing (RequestException Timeout)) (serving bad_heat_snapshot) 0 60
           fresh_world (RequestException Timeout) self eq_refl eq_refl).
  - apply login_raises. reflexivity.
  - reflexivity.
  - reflexivity.
Defined.

(** ** Unit suffixes *)

Lemma str_rstrip_by (s chars : pystr) :
  str_rstrip s chars = rstrip_by (fun c => char_in c chars) s.
Proof. induction s as [|c s IH]; simpl; [reflexivity|]. rewrite IH. reflexivity. Qed.

Lemma Num_rstrip_by (s : pystr) : Num.rstrip s = rstrip_by Num.is_space s.
Proof. induction s as [|c s IH]; simpl; [reflexivity|]. rewrite IH. reflexivity. Qed.

Section RstripBy.

Variable p : N -> bool.

Lemma rstrip_by_all (b : pystr) : forallb p b = true -> rstrip_by p b = [].
Proof.
  induction b as [|c b IH]; simpl; [reflexivity|]. intros H.
  apply andb_true_iff in H as [Hc Hb]. rewrite (IH Hb), Hc. reflexivity.
Qed.

Lemma rstrip_by_app_all (a b : pystr) :
  forallb p b = true -> rstrip_by p (a ++ b) = rstrip_by p a.
Proof.
  intros Hb. induction a as [|c a IH]; simpl.
  - apply rstrip_by_all. exact Hb.
  - rewrite IH. reflexivity.
Qed.

Lemma rstrip_by_app_keep (a b : pystr) :
  rstrip_by p b <> [] -> rstrip_by p (a ++ b) = a ++ rstrip_by p b.
Proof.
  intros Hb. induction a as [|c a IH]; simpl; [reflexivity|].
  rewrite IH. destruct (a ++ rstrip_by p b) eqn:E; [|reflexivity].
  apply app_eq_nil in E as [_ E]. contradiction.
Qed.

Lemma rstrip_by_cons_keep (z : N) (t : pystr) :
  p z = false -> rstrip_by p (z :: t) = z :: rstrip_by p t.
Proof. intros Hz. simpl. destruct (rstrip_by p t); [rewrite Hz|]; reflexivity. Qed.

(** What is stripped is a tail of characters that satisfy [p]. *)
Lemma rstrip_by_split (s : pystr) :
  exists t, s = rstrip_by p s ++ t /\ forallb p t = true.
Proof.
  induction s as [|c s [t [Hs Ht]]]; simpl.
  - exists []. auto.
  - destruct (rstrip_by p s) as [|c' r] eqn:E.
    + destruct (p c) eqn:Hc.
      * exists (c :: s). split; [reflexivity|]. simpl. rewrite Hc. simpl.
        simpl in Hs. rewrite Hs. exact Ht.
      * exists t. split; [|exact Ht]. simpl in *. congruence.
    + exists t. split; [|exact Ht]. simpl in *. congruence.
Qed.

(** What is left is empty or ends with a character that does not satisfy
    [p]. *)
Lemma rstrip_by_end (s : pystr) :
  rstrip_by p s = [] \/ ends_with (fun c => negb (p c)) (rstrip_by p s).
Proof.
  induction s as [|c s IH]; simpl; [left; reflexivity|].
  destruct (rstrip_by p s) as [|c' r] eqn:E.
  - destruct (p c) eqn:Hc; [left; reflexivity|].
    right. exists [], c. split; [reflexivity|]. rewrite Hc. reflexivity.
  - right. destruct IH as [IH|[x [z [Hx Hz]]]]; [discriminate|].
    exists (c :: x), z. split; [simpl; rewrite Hx; reflexivity|exact Hz].
Qed.

End RstripBy.

Lemma forallb_app_l {A : Type} (q : A -> bool) (a b : list A) :
  forallb q (a ++ b) = true -> forallb q a = true.
Proof. rewrite forallb_app. intros H. apply andb_true_iff in H as [H _]. exact H. Qed.

Lemma lstrip_split (s : pystr) :
  exists lead, s = lead ++ Num.lstrip s /\ forallb Num.is_space lead = true.
Proof.
  induction s as [|c s [lead [Hs Hl]]]; simpl.
  - exists []. auto.
  - destruct (Num.is_space c) eqn:Hc.
    + exists (c :: lead). simpl. rewrite Hc, <- Hs. auto.
    + exists []. auto.
Qed.

Lemma lstrip_head (s : pystr) (c : N) (r : pystr) :
  Num.lstrip s = c :: r -> Num.is_space c = false.
Proof.
  induction s as [|c0 s IH]; simpl; [discriminate|].
  destruct (Num.is_space c0) eqn:Hc; [exact IH|]. intros [= <- _]. exact Hc.
Qed.

Lemma lstrip_spaces (lead s : pystr) :
  forallb Num.is_space lead = true -> Num.lstrip (lead ++ s) = Num.lstrip s.
Proof.
  induction lead as [|c lead IH]; simpl; [reflexivity|]. intros H.
  apply andb_true_iff in H as [Hc Hl]. rewrite Hc. exact (IH Hl).
Qed.

Lemma lstrip_fixed (c : N) (s : pystr) :
  Num.is_space c = false -> Num.lstrip (c :: s) = c :: s.
Proof. intros H. simpl. rewrite H. reflexivity. Qed.

Lemma ends_with_app (p : N -> bool) (a b : pystr) :
  ends_with p b -> ends_with p (a ++ b).
Proof.
  intros [x [z [-> Hz]]]. exists (a ++ x), z. rewrite app_assoc. auto.
Qed.

Lemma ends_with_weaken (p q : N -> bool) (s : pystr) :
  (forall c, p c = true -> q c = true) -> ends_with p s -> ends_with q s.
Proof. intros H [x [z [-> Hz]]]. exists x, z. auto. Qed.

Lemma ends_with_digit_after (c : N) (pre : pystr) :
  is_digit c = true ->
  pre = [] \/ ends_with is_digit pre ->
  ends_with is_digit (c :: pre).
Proof.
  intros Hc [->|H].
  - exists [], c. auto.
  - apply (ends_with_app is_digit [c] pre H).
Qed.

Lemma digit_is_digit (c d : N) : Num.digit c = Some d -> is_digit c = true.
Proof. unfold is_digit. intros ->. reflexivity. Qed.

(** What [digits_go] reads is empty or ends with a digit. *)
Lemma digits_go_last (s : pystr) :
  forall acc cnt n c rest,
    Num.digits_go acc cnt s = (n, c, rest) ->
    exists pre, s = pre ++ rest /\ (pre = [] \/ ends_with is_digit pre).
Proof.
  induction s as [s IH] using length_induction. intros acc cnt n c rest H.
  destruct s as [|c0 s]; simpl in H.
  - injection H as _ _ <-. exists []. auto.
  - destruct (Num.digit c0) as [d|] eqn:Hd.
    + destruct (IH s ltac:(simpl; lia) _ _ _ _ _ H) as [pre [-> Hpre]].
      exists (c0 :: pre). split; [reflexivity|]. right.
      apply ends_with_digit_after; [exact (digit_is_digit _ _ Hd)|exact Hpre].
    + destruct (c0 =? 95)%N.
      * destruct s as [|c1 s]; [injection H as _ _ <-; exists []; auto|].
        destruct (Num.digit c1) as [d|] eqn:Hd1.
        -- destruct (IH s ltac:(simpl; lia) _ _ _ _ _ H) as [pre [-> Hpre]].
           exists (c0 :: c1 :: pre). split; [reflexivity|]. right.
           apply (ends_with_app is_digit [c0] (c1 :: pre)).
           apply ends_with_digit_after; [exact (digit_is_digit _ _ Hd1)|exact Hpre].
        -- injection H as _ _ <-. exists []. auto.
      * injection H as _ _ <-. exists []. auto.
Qed.

Lemma digitpart_last (s : pystr) (n : N) (c : nat) (rest : pystr) :
  Num.digitpart s = Some (n, c, rest) ->
  exists pre, s = pre ++ rest /\ ends_with is_digit pre.
Proof.
  unfold Num.digitpart. destruct s as [|c0 s]; [discriminate|].
  destruct (Num.digit c0) as [d|] eqn:Hd; [|discriminate].
  intros [= H]. destruct (digits_go_last _ _ _ _ _ _ H) as [pre [-> Hpre]].
  exists (c0 :: pre). split; [reflexivity|].
  apply ends_with_digit_after; [exact (digit_is_digit _ _ Hd)|exact Hpre].
Qed.

Lemma digit_float_end (c : N) : is_digit c = true -> float_end c = true.
Proof. unfold float_end. intros ->. reflexivity. Qed.

Lemma point_float_end (c : N) : (c =? 46)%N = true -> float_end c = true.
Proof. unfold float_end. intros ->. rewrite orb_true_r. reflexivity. Qed.

Lemma number_last (s : pystr) (m : N) (frac : nat) (rest : pystr) :
  Num.number s = Some (m, frac, rest) ->
  exists pre, s = pre ++ rest /\ ends_with float_end pre.
Proof.
  unfold Num.number.
  destruct (Num.digitpart s) as [[[n c] r]|] eqn:Hdp.
  - destruct (digitpart_last _ _ _ _ Hdp) as [pre [-> Hpre]].
    pose proof (ends_with_weaken _ _ _ digit_float_end Hpre) as Hpre'.
    destruct r as [|c0 r]; [intros [= _ _ <-]; exists pre; auto|].
    destruct (c0 =? 46)%N eqn:Hpt; [|intros [= _ _ <-]; exists pre; auto].
    assert (Hdot : ends_with float_end (pre ++ [c0])).
    { exists pre, c0. split; [reflexivity|exact (point_float_end _ Hpt)]. }
    destruct r as [|c1 r].
    + intros [= _ _ <-]. exists (pre ++ [c0]). rewrite app_nil_r. auto.
    + destruct (Num.digit c1) as [d|] eqn:Hd1.
      * intros [= H]. destruct (digits_go_last _ _ _ _ _ _ H) as [pre2 [-> Hpre2]].
        exists (pre ++ c0 :: c1 :: pre2). split; [rewrite <- app_assoc; reflexivity|].
        apply ends_with_app. apply (ends_with_app float_end [c0]).
        apply (ends_with_weaken _ _ _ digit_float_end).
        apply ends_with_digit_after; [exact (digit_is_digit _ _ Hd1)|exact Hpre2].
      * intros [= _ _ <-]. exists (pre ++ [c0]). split; [rewrite <- app_assoc; reflexivity|auto].
  - destruct s as [|c0 s]; [discriminate|].
    destruct (c0 =? 46)%N; [|discriminate].
    intros H. destruct (digitpart_last _ _ _ _ H) as [pre [-> Hpre]].
    exists (c0 :: pre). split; [reflexivity|].
    apply (ends_with_app float_end [c0]). exact (ends_with_weaken _ _ _ digit_float_end Hpre).
Qed.

Lemma sign_split (s : pystr) (neg : bool) (r : pystr) :
  Num.sign s = (neg, r) -> s = r \/ exists c, s = c :: r.
Proof.
  unfold Num.sign. destruct s as [|c s]; [intros [= _ <-]; auto|].
  destruct (c =? 45)%N; [intros [= _ <-]; right; exists c; reflexivity|].
  destruct (c =? 43)%N; intros [= _ <-]; [right; exists c; reflexivity|auto].
Qed.

Lemma ends_with_after_sign (p : N -> bool) (s r : pystr) (neg : bool) :
  Num.sign s = (neg, r) -> ends_with p r -> ends_with p s.
Proof.
  intros Hs Hr. destruct (sign_split _ _ _ Hs) as [->|[c ->]]; [exact Hr|].
  apply (ends_with_app p [c]). exact Hr.
Qed.

Lemma exponent_last (s : pystr) (e : Z) :
  Num.exponent s = Some (e, []) -> s = [] \/ ends_with float_end s.
Proof.
  unfold Num.exponent. destruct s as [|c s]; [auto|].
  destruct ((c =? 101) || (c =? 69))%N; [|discriminate].
  destruct (Num.sign s) as [neg r] eqn:Hs.
  destruct (Num.digitpart r) as [[[n cnt] rest]|] eqn:Hdp; [|discriminate].
  intros [= _ ->]. right.
  destruct (digitpart_last _ _ _ _ Hdp) as [pre [-> Hpre]]. rewrite app_nil_r in Hs.
  apply (ends_with_app float_end [c]).
  apply (ends_with_after_sign _ _ _ _ Hs).
  exact (ends_with_weaken _ _ _ digit_float_end Hpre).
Qed.

Lemma name_end (r : pystr) (y : N) (x : pystr) :
  map Num.lower_ascii r = x ++ [y] ->
  exists x' z, r = x' ++ [z] /\ Num.lower_ascii z = y.
Proof.
  revert x. induction r as [|c r IH]; intros x H.
  - destruct x; discriminate.
  - destruct x as [|c' x]; simpl in H.
    + injection H as Hc Hr. destruct r; [|discriminate]. exists [], c. auto.
    + injection H as _ Hr. destruct (IH _ Hr) as [x' [z [-> Hz]]].
      exists (c :: x'), z. auto.
Qed.

(** A string that [float] accepts ends, once the white space around it is
    gone, with a digit, a point or a letter of [inf], [infinity], [nan]. *)
Lemma float_literal_end (d : pystr) (v : pyfloat) :
  Num.float_of_str d = Some v -> ends_with float_end (Num.strip d).
Proof.
  unfold Num.float_of_str.
  destruct (Num.sign (Num.strip d)) as [neg r] eqn:Hs.
  intros H. apply (ends_with_after_sign _ _ _ _ Hs).
  destruct (str_eqb (map Num.lower_ascii r) (utf8 "inf")
            || str_eqb (map Num.lower_ascii r) (utf8 "infinity")) eqn:Hinf.
  - apply orb_true_iff in Hinf as [E|E]; apply str_eqb_eq in E.
    + destruct (name_end r 102%N (utf8 "in") E) as [x [z [-> Hz]]].
      exists x, z. split; [reflexivity|]. unfold float_end. rewrite Hz.
      rewrite !orb_true_r. reflexivity.
    + destruct (name_end r 121%N (utf8 "infinit") E) as [x [z [-> Hz]]].
      exists x, z. split; [reflexivity|]. unfold float_end. rewrite Hz.
      rewrite !orb_true_r. reflexivity.
  - destruct (str_eqb (map Num.lower_ascii r) (utf8 "nan")) eqn:Hnan.
    + apply str_eqb_eq in Hnan.
      destruct (name_end r 110%N (utf8 "na") Hnan) as [x [z [-> Hz]]].
      exists x, z. split; [reflexivity|]. unfold float_end. rewrite Hz.
      rewrite !orb_true_r. reflexivity.
    + destruct (Num.number r) as [[[m frac] r1]|] eqn:Hnum; [|discriminate].
      destruct (Num.exponent r1) as [[e [|c rest]]|] eqn:Hexp; try discriminate.
      destruct (number_last _ _ _ _ Hnum) as [pre [-> Hpre]].
      destruct (exponent_last _ _ Hexp) as [->|Hr1].
      * rewrite app_nil_r. exact Hpre.
      * apply ends_with_app. exact Hr1.
Qed.

Lemma is_space_cases (z : N) :
  Num.is_space z = true ->
  In z [9; 10; 11; 12; 13; 32; 133; 160; 5760; 8192; 8193; 8194; 8195; 8196;
        8197; 8198; 8199; 8200; 8201; 8202; 8232; 8233; 8239; 8287; 12288]%N.
Proof.
  unfold Num.is_space. intros H.
  repeat (apply orb_true_iff in H as [H|H]);
    try (apply andb_true_iff in H as [H1 H2]; apply N.leb_le in H1, H2);
    try apply N.eqb_eq in H; simpl; lia.
Qed.

Lemma float_end_not_space (z : N) : float_end z = true -> Num.is_space z = false.
Proof.
  intros H. destruct (Num.is_space z) eqn:E; [|reflexivity].
  apply is_space_cases in E. simpl in E.
  repeat (destruct E as [<-|E]; [vm_compute in H; discriminate H|]).
  destruct E.
Qed.

(** Stripping trailing characters that no float literal ends with does not
    change what [float] makes of a string it accepts. *)
Lemma strip_after_rstrip (chars d : pystr) :
  (forall z, float_end z = true -> char_in z chars = false) ->
  ends_with float_end (Num.strip d) ->
  Num.strip (str_rstrip d chars) = Num.strip d.
Proof.
  intros Hchars [x [z [Hcore Hz]]].
  pose proof (Hchars z Hz) as Hq. pose proof (float_end_not_space z Hz) as Hsp.
  unfold Num.strip in *. rewrite !Num_rstrip_by in *. rewrite str_rstrip_by.
  set (q := fun c => char_in c chars) in *.
  destruct (lstrip_split d) as [lead [Hd Hlead]].
  destruct (rstrip_by_split Num.is_space (Num.lstrip d)) as [trail [Hl Htrail]].
  rewrite Hcore in Hl.
  destruct (rstrip_by_split q trail) as [t2 [Htr Ht2]].
  set (t' := rstrip_by q trail) in *.
  assert (Ht' : forallb Num.is_space t' = true).
  { rewrite Htr in Htrail. exact (forallb_app_l _ _ _ Htrail). }
  assert (Hd' : rstrip_by q d = lead ++ x ++ z :: t').
  { rewrite Hd, Hl.
    replace (lead ++ (x ++ [z]) ++ trail) with ((lead ++ x) ++ z :: trail)
      by (rewrite <- !app_assoc; reflexivity).
    rewrite rstrip_by_app_keep.
    - rewrite (rstrip_by_cons_keep q z trail Hq). rewrite <- app_assoc. reflexivity.
    - rewrite (rstrip_by_cons_keep q z trail Hq). discriminate. }
  rewrite Hd', (lstrip_spaces _ _ Hlead).
  assert (Hfix : Num.lstrip (x ++ z :: t') = x ++ z :: t').
  { destruct x as [|c x]; [apply lstrip_fixed; exact Hsp|].
    apply lstrip_fixed. apply (lstrip_head d c ((x ++ [z]) ++ trail)). exact Hl. }
  rewrite Hfix.
  replace (x ++ z :: t') with ((x ++ [z]) ++ t') by (rewrite <- app_assoc; reflexivity).
  rewrite (rstrip_by_app_all _ _ _ Ht').
  rewrite rstrip_by_app_keep; simpl; rewrite Hsp; [symmetry; exact Hcore|discriminate].
Qed.

Lemma str_rstrip_suffix (d suffix : pystr) :
  str_rstrip (d ++ suffix) suffix = str_rstrip d suffix.
Proof.
  rewrite !str_rstrip_by. apply rstrip_by_app_all.
  apply forallb_forall. intros c Hc. unfold char_in. apply existsb_exists.
  exists c. split; [exact Hc|apply N.eqb_refl].
Qed.

(** A float literal followed by a unit whose characters end no literal
    parses to the value of the literal once the unit is stripped. *)
Lemma float_of_literal_with_unit (d suffix : pystr) (v : pyfloat) :
  (forall z, float_end z = true -> char_in z suffix = false) ->
  Num.float_of_str d = Some v ->
  Num.float_of_str (str_rstrip (d ++ suffix) suffix) = Some v.
Proof.
  intros Hchars Hd. rewrite str_rstrip_suffix.
  pose proof (strip_after_rstrip suffix d Hchars (float_literal_end d v Hd)) as Hs.
  unfold Num.float_of_str in *. rewrite Hs. exact Hd.
Qed.

Lemma unit_suffixes_end_no_literal (key : pystr) (f : source_field) (suffix : pystr) :
  rule_of documented_rules key = Some (f, FloatStripped suffix) ->
  forall z, float_end z = true -> char_in z suffix = false.
Proof.
  intros Hrule z Hz.
  assert (Hs : suffix = utf8 " kWh" \/ suffix = utf8 " °C")
    by (rule_cases Hrule; auto).
  destruct (char_in z suffix) eqn:E; [|reflexivity].
  unfold char_in in E. apply existsb_exists in E as [x [Hx E]].
  apply N.eqb_eq in E. subst x.
  destruct Hs as [-> | ->]; vm_compute in Hx;
    repeat (destruct Hx as [<-|Hx]; [vm_compute in Hz; discriminate Hz|]);
    destruct Hx.
Qed.

(** X17.  For the seven keys that carry a unit: when the field is any text
    that [float] accepts, followed by the unit ([ kWh] or [ °C]), [update]
    resolves the entity to the float of that text; the stripping of the unit
    characters never eats into the number.  The snapshot stays as the
    client's refresh left it. *)
Theorem literal_with_unit_resolves
  (key : pystr) (f : source_field) (suffix : pystr)
  (net : network) (now : Z) (self : IdmHeatingSensor) (w w1 : world)
  (r : pyval) (d : pystr) (v : pyfloat)
  (Hrule : rule_of documented_rules key = Some (f, FloatStripped suffix))
  (Hty : type self = key)
  (Hrefresh : IdmData_update net now w = (Ok r, w1))
  (Hfield : field_value (data (idm w1)) f = Some (PStr (d ++ suffix)))
  (Hliteral : Num.float_of_str d = Some v) :
  IdmHeatingSensor_update net now (self, w) = (Ok tt, (with_state self (PFloat v), w1)).
Proof.
  rewrite (sensor_update_run _ _ _ _ _ _ Hrefresh), Hty.
  rewrite (extract_well_formed _ _ _ _ _ _ (PFloat v) Hrule Hfield); [reflexivity|].
  simpl. rewrite (float_of_literal_with_unit d suffix v); [reflexivity| |exact Hliteral].
  exact (unit_suffixes_end_no_literal _ _ _ Hrule).
Qed.

(** The entity [outside_temp] on [{"temp_outside": "-3.25 °C"}]. *)
Lemma literal_with_unit_resolves_witness :
  let self := sensor_of (utf8 "outside_temp") PNone in
  let snapshot := PDict [(utf8 "temp_outside", PStr (utf8 "-3.25" ++ utf8 " °C"))] in
  IdmHeatingSensor_update (serving snapshot) 0 (self, fresh_world)
  = (Ok tt, (with_state self (PFloat (FFin (-13 # 4))),
             snd (IdmData_update (serving snapshot) 0 fresh_world))).
Proof.
  intros self snapshot.
  apply (literal_with_unit_resolves (utf8 "outside_temp") (TopField (utf8 "temp_outside"))
           (utf8 " °C") (serving snapshot) 0 self fresh_world
           (snd (IdmData_update (serving snapshot) 0 fresh_world))
           PNone (utf8 "-3.25") (FFin (-13 # 4)) eq_refl eq_refl eq_refl eq_refl eq_refl).
Defined.

Lemma float_of_literal_with_unit_chars (d t suffix : pystr) (v : pyfloat) :
  (forall z, float_end z = true -> char_in z suffix = false) ->
  forallb (fun c => char_in c suffix) t = true ->
  Num.float_of_str d = Some v ->
  Num.float_of_str (str_rstrip (d ++ t) suffix) = Some v.
Proof.
  intros Hchars Ht Hd. rewrite str_rstrip_by, (rstrip_by_app_all _ d t Ht), <- str_rstrip_by.
  pose proof (strip_after_rstrip suffix d Hchars (float_literal_end d v Hd)) as Hs.
  unfold Num.float_of_str in *. rewrite Hs. exact Hd.
Qed.

(** X18.  [rstrip] takes the unit as a set of characters: for the seven
    keys that carry a unit, a field made of a text that [float] accepts
    followed by any run of the unit's characters (the unit missing, written
    without its blank, or repeated) resolves to the float of that text all
    the same. *)
Theorem any_run_of_unit_characters_is_stripped
  (key : pystr) (f : source_field) (suffix : pystr)
  (net : network) (now : Z) (self : IdmHeatingSensor) (w w1 : world)
  (r : pyval) (d t : pystr) (v : pyfloat)
  (Hrule : rule_of documented_rules key = Some (f, FloatStripped suffix))
  (Hty : type self = key)
  (Hrefresh : IdmData_update net now w = (Ok r, w1))
  (Hrun : forallb (fun c => char_in c suffix) t = true)
  (Hfield : field_value (data (idm w1)) f = Some (PStr (d ++ t)))
  (Hliteral : Num.float_of_str d = Some v) :
  IdmHeatingSensor_update net now (self, w) = (Ok tt, (with_state self (PFloat v), w1)).
Proof.
  rewrite (sensor_update_run _ _ _ _ _ _ Hrefresh), Hty.
  rewrite (extract_well_formed _ _ _ _ _ _ (PFloat v) Hrule Hfield); [reflexivity|].
  simpl. rewrite (float_of_literal_with_unit_chars d t suffix v);
    [reflexivity| |exact Hrun|exact Hliteral].
  exact (unit_suffixes_end_no_literal _ _ _ Hrule).
Qed.

(** The entity [heat_quantity] on [{"sum_heat": "12kWhh"}]. *)
Lemma any_run_of_unit_characters_is_stripped_witness :
  let self := sensor_of (utf8 "heat_quantity") PNone in
  let snapshot := PDict [(utf8 "sum_heat", PStr (utf8 "12" ++ utf8 "kWhh"))] in
  IdmHeatingSensor_update (serving snapshot) 0 (self, fresh_world)
  = (Ok tt, (with_state self (PFloat (FFin 12)),
             snd (IdmData_update (serving snapshot) 0 fresh_world))).
Proof.
  intros self snapshot.
  apply (any_run_of_unit_characters_is_stripped (utf8 "heat_quantity")
           (TopField (utf8 "sum_heat")) (utf8 " kWh") (serving snapshot) 0 self fresh_world
           (snd (IdmData_update (serving snapshot) 0 fresh_world))
           PNone (utf8 "12") (utf8 "kWhh") (FFin 12)
           eq_refl eq_refl eq_refl eq_refl eq_refl eq_refl).
Defined.
